(** * Block-preserving merge of the demo sync orchestrator

    A shallow embedding of the context-anchored merge implemented by
    [CopilotSyncOrchestrator] (extractProtectedBlocks, intelligentMerge and
    their helpers, validateProtectedBlocks) and of
    [SyncValidator.validateProtectedBlocks].

    Conventions of the embedding.
    - A JavaScript string is the [string] of the bytes of its UTF-8
      encoding; a document is the [list string] obtained by [split] on the
      line feed.  The strings of the program come from files read as UTF-8
      and from the configuration, and are cut at line feeds and at white
      space only, so they are well-formed; on such strings equality,
      [includes], [split], [join] and [trim] on the bytes are those of
      JavaScript on the code units.  [trim] and the class [\s] strip the
      white space and line terminators of ECMAScript ([Js.whiteSpaces]).
      The preview of a warning, [substring(0, 100)], can cut a surrogate
      pair: it is given as UTF-16 code units ([Js.units]).
    - Array indices are [nat].  The sentinel [-1] returned by the two search
      functions is [None].  An access [lines[i]] outside the array yields
      [undefined], on which [.trim()] throws; the functions that can reach such
      an access return [option], [None] standing for the exception.
    - [for] loops over an index carry the index and the number of iterations
      left; [while] loops over an array position recurse on the remaining
      suffix of the array.
    - The configuration [this.config.protected_blocks] is an explicit
      argument.
    - Reading and writing files, logging and the argument [file] of
      [intelligentMerge], which the function does not use, are left out:
      [smartMergeFile] is the function from the two texts to the text
      written and the warnings logged. *)

From Stdlib Require Import String Ascii Bool Arith ZArith Lia List Sorted.
From Stdlib Require Import Setoid Morphisms.
From Stdlib Require Import Numbers.DecimalString.
Import ListNotations.
Open Scope string_scope.
Open Scope list_scope.
Open Scope nat_scope.

(** ** JavaScript string primitives *)

Module Js.

Definition LF : ascii := ascii_of_nat 10.

(** The string of the given bytes. *)
Fixpoint ofBytes (bytes : list nat) : string :=
  match bytes with
  | [] => EmptyString
  | b :: bytes' => String (ascii_of_nat b) (ofBytes bytes')
  end.

(** White space and line terminators of ECMAScript, the characters that
    [trim] strips and [\s] matches: each code point with the bytes of its
    UTF-8 encoding.  U+0009 to U+000D, U+0020, U+00A0, U+1680, U+2000 to
    U+200A, U+2028, U+2029, U+202F, U+205F, U+3000 and U+FEFF. *)
Definition whiteSpaces : list (N * list nat) :=
  [(9%N, [9]); (10%N, [10]); (11%N, [11]); (12%N, [12]); (13%N, [13]);
   (32%N, [32]);
   (160%N, [194; 160]);
   (5760%N, [225; 154; 128]);
   (8192%N, [226; 128; 128]); (8193%N, [226; 128; 129]);
   (8194%N, [226; 128; 130]); (8195%N, [226; 128; 131]);
   (8196%N, [226; 128; 132]); (8197%N, [226; 128; 133]);
   (8198%N, [226; 128; 134]); (8199%N, [226; 128; 135]);
   (8200%N, [226; 128; 136]); (8201%N, [226; 128; 137]);
   (8202%N, [226; 128; 138]);
   (8232%N, [226; 128; 168]); (8233%N, [226; 128; 169]);
   (8239%N, [226; 128; 175]);
   (8287%N, [226; 129; 159]);
   (12288%N, [227; 128; 128]);
   (65279%N, [239; 187; 191])].

(** [s] is one white-space character. *)
Definition isWhiteSpaceChar (s : string) : bool :=
  existsb (fun w => String.eqb s (ofBytes (snd w))) whiteSpaces.

Definition isEmpty (s : string) : bool :=
  match s with
  | EmptyString => true
  | String _ _ => false
  end.

(** [s] starts with a white-space character, of one, two or three bytes. *)
Definition startsWithWhiteSpace (s : string) : bool :=
  match s with
  | EmptyString => false
  | String c1 s1 =>
      isWhiteSpaceChar (String c1 EmptyString)
      || match s1 with
         | EmptyString => false
         | String c2 s2 =>
             isWhiteSpaceChar (String c1 (String c2 EmptyString))
             || match s2 with
                | EmptyString => false
                | String c3 _ =>
                    isWhiteSpaceChar
                      (String c1 (String c2 (String c3 EmptyString)))
                end
         end
  end.

Fixpoint trimStart (s : string) : string :=
  match s with
  | EmptyString => EmptyString
  | String c1 s1 =>
      if isWhiteSpaceChar (String c1 EmptyString) then trimStart s1
      else
        match s1 with
        | EmptyString => s
        | String c2 s2 =>
            if isWhiteSpaceChar (String c1 (String c2 EmptyString))
            then trimStart s2
            else
              match s2 with
              | EmptyString => s
              | String c3 s3 =>
                  if isWhiteSpaceChar
                       (String c1 (String c2 (String c3 EmptyString)))
                  then trimStart s3
                  else s
              end
        end
  end.

(** From the end: the first byte of a white-space character followed by
    white space only is followed, once that is trimmed, by the other bytes
    of the character. *)
Fixpoint trimEnd (s : string) : string :=
  match s with
  | EmptyString => EmptyString
  | String c s' =>
      let t := trimEnd s' in
      if isWhiteSpaceChar (String c t) then EmptyString else String c t
  end.

(** [s.trim()] *)
Definition trim (s : string) : string := trimEnd (trimStart s).

(** [s.includes(m)]: [m] occurs in [s] as a substring. *)
Fixpoint includes (s m : string) : bool :=
  String.prefix m s ||
  match s with
  | EmptyString => false
  | String _ s' => includes s' m
  end.

(** [s.split('\n')]: never the empty array. *)
Fixpoint split (s : string) : list string :=
  match s with
  | EmptyString => [EmptyString]
  | String c s' =>
      if Ascii.eqb c LF then EmptyString :: split s'
      else match split s' with
           | [] => [String c EmptyString]
           | l :: ls => String c l :: ls
           end
  end.

(** The line feed occurs in [s]. *)
Fixpoint hasLF (s : string) : bool :=
  match s with
  | EmptyString => false
  | String c s' => Ascii.eqb c LF || hasLF s'
  end.

(** [a.join('\n')] *)
Definition join (a : list string) : string :=
  String.concat (String LF EmptyString) a.

(** The UTF-16 code units of [s]: one for a character of one, two or three
    bytes, a surrogate pair for a character of four bytes.  Only the value
    on well-formed strings matters. *)
Fixpoint units (s : string) : list N :=
  match s with
  | EmptyString => []
  | String c1 s1 =>
      let b1 := N_of_ascii c1 in
      if (b1 <? 128)%N then b1 :: units s1
      else
        match s1 with
        | EmptyString => [65533%N]
        | String c2 s2 =>
            let b2 := N_of_ascii c2 in
            if (b1 <? 224)%N then
              ((b1 mod 32) * 64 + b2 mod 64)%N :: units s2
            else
              match s2 with
              | EmptyString => [65533%N]
              | String c3 s3 =>
                  let b3 := N_of_ascii c3 in
                  if (b1 <? 240)%N then
                    ((b1 mod 16) * 4096 + (b2 mod 64) * 64 + b3 mod 64)%N
                    :: units s3
                  else
                    match s3 with
                    | EmptyString => [65533%N]
                    | String c4 s4 =>
                        let b4 := N_of_ascii c4 in
                        let v := ((b1 mod 8) * 262144 + (b2 mod 64) * 4096
                                  + (b3 mod 64) * 64 + b4 mod 64
                                  - 65536)%N in
                        (55296 + v / 1024)%N :: (56320 + v mod 1024)%N
                        :: units s4
                    end
              end
        end
  end.

(** [s.substring(0, n)], as code units. *)
Definition substring0 (n : nat) (s : string) : list N :=
  firstn n (units s).

(** Number to string conversion in a template literal. *)
Definition ofNat (n : nat) : string :=
  NilEmpty.string_of_uint (Nat.to_uint n).

Definition ofZ (z : Z) : string :=
  NilEmpty.string_of_int (Z.to_int z).

(** [a.splice(start, deleteCount, ...items)] for [start >= 0]: the array
    after the call.  JavaScript clamps [start] to the length and
    [deleteCount] to what is left, as [firstn] and [skipn] do. *)
Definition splice {A} (a : list A) (start deleteCount : nat) (items : list A)
  : list A :=
  firstn start a ++ items ++ skipn (start + deleteCount) a.

End Js.

(** ** Data model *)

(** [this.config.protected_blocks] *)
Record ProtectedBlocksConfig := {
  start_markers : list string;
  end_markers : list string
}.

(** The objects pushed by [extractProtectedBlocks]. *)
Record ProtectedBlock := {
  start : nat;
  end_ : nat;
  content : string
}.

(** The objects pushed on [warnings] by [intelligentMerge]. *)
Record MergeWarning := {
  type : string;
  message : string;
  block : list N
}.

(** [markers.some(marker => line.includes(marker))] *)
Definition someIncludes (markers : list string) (line : string) : bool :=
  existsb (fun marker => Js.includes line marker) markers.

(** ** extractProtectedBlocks *)

(** The three local variables of the scan. *)
Record ExtractState := {
  inBlock : bool;
  currentBlock : list string;
  blockStart : nat
}.

(** The initial value of [blockStart] is [-1] in the source; it is assigned
    on every entry into a block before it is read, see
    [extract_loop_blockStart_irrelevant]. *)
Definition extract_init : ExtractState :=
  {| inBlock := false; currentBlock := []; blockStart := 0 |}.

(** The body of the [for] loop: [lines] is what is left to scan and [i] the
    index of its first line. *)
Fixpoint extract_loop (cfg : ProtectedBlocksConfig) (lines : list string)
  (i : nat) (st : ExtractState) (blocks : list ProtectedBlock)
  : list ProtectedBlock :=
  match lines with
  | [] => blocks
  | line :: rest =>
      if negb (inBlock st) && someIncludes (start_markers cfg) line then
        extract_loop cfg rest (S i)
          {| inBlock := true; currentBlock := [line]; blockStart := i |}
          blocks
      else if inBlock st then
        let currentBlock' := currentBlock st ++ [line] in
        if someIncludes (end_markers cfg) line then
          extract_loop cfg rest (S i)
            {| inBlock := false; currentBlock := [];
               blockStart := blockStart st |}
            (blocks ++ [{| start := blockStart st; end_ := i;
                           content := Js.join currentBlock' |}])
        else
          extract_loop cfg rest (S i)
            {| inBlock := true; currentBlock := currentBlock';
               blockStart := blockStart st |}
            blocks
      else
        extract_loop cfg rest (S i) st blocks
  end.

Definition extractProtectedBlocks (cfg : ProtectedBlocksConfig)
  (content : string) : list ProtectedBlock :=
  extract_loop cfg (Js.split content) 0 extract_init [].

(** ** Context sampling *)

(** [isMarkerLine] *)
Definition isMarkerLine (cfg : ProtectedBlocksConfig) (line : string) : bool :=
  someIncludes (start_markers cfg ++ end_markers cfg) line.

(** The loop shared by [getContextBefore] and [getContextAfter]: [n]
    iterations from index [i], each reading [lines[i].trim()]. *)
Fixpoint context_loop (cfg : ProtectedBlocksConfig) (lines : list string)
  (i n : nat) (contextLines : list string) : option (list string) :=
  match n with
  | 0 => Some contextLines
  | S n' =>
      match nth_error lines i with
      | None => None
      | Some l =>
          let line := Js.trim l in
          if negb (Js.isEmpty line) && negb (isMarkerLine cfg line) then
            context_loop cfg lines (S i) n' (contextLines ++ [line])
          else
            context_loop cfg lines (S i) n' contextLines
      end
  end.

Definition getContextBefore (cfg : ProtectedBlocksConfig)
  (lines : list string) (position count : nat) : option (list string) :=
  let start := Nat.max 0 (position - count) in
  context_loop cfg lines start (position - start) [].

Definition getContextAfter (cfg : ProtectedBlocksConfig)
  (lines : list string) (position count : nat) : option (list string) :=
  let end' := Nat.min (length lines) (position + count + 1) in
  context_loop cfg lines (position + 1) (end' - (position + 1)) [].

(** ** Anchor search *)

(** The [while] loop of [matchesContext]: [rest] is [lines] from [lineIdx]
    on and [context] is the context from [contextIdx] on. *)
Fixpoint matches_loop (rest : list string) (context : list string)
  (skipEmpty : bool) {struct rest} : bool :=
  match context with
  | [] => true
  | c :: context' =>
      match rest with
      | [] => false
      | l :: rest' =>
          let line := Js.trim l in
          if skipEmpty && Js.isEmpty line then
            matches_loop rest' context skipEmpty
          else if String.eqb line c then
            matches_loop rest' context' skipEmpty
          else if Js.includes line c || Js.includes c line then
            matches_loop rest' context' skipEmpty
          else false
      end
  end.

Definition matchesContext (lines : list string) (startPos : nat)
  (context : list string) (skipEmpty : bool) : bool :=
  matches_loop (skipn startPos lines) context skipEmpty.

(** The [for] loop of [findInsertPosition], [n] iterations from [i]. *)
Fixpoint findInsert_loop (lines contextBefore : list string) (i n : nat)
  : option nat :=
  match n with
  | 0 => None
  | S n' =>
      if matchesContext lines i contextBefore true then
        let afterPos := i + length contextBefore in
        if afterPos <? length lines then Some afterPos
        else findInsert_loop lines contextBefore (S i) n'
      else findInsert_loop lines contextBefore (S i) n'
  end.

Definition findInsertPosition (lines contextBefore contextAfter : list string)
  : option nat :=
  findInsert_loop lines contextBefore 0 (length lines).

(** The [for] loop of [findContextAfterPosition]. *)
Fixpoint findAfter_loop (lines contextAfter : list string) (i n : nat)
  : option nat :=
  match n with
  | 0 => None
  | S n' =>
      if matchesContext lines i contextAfter false then Some i
      else findAfter_loop lines contextAfter (S i) n'
  end.

Definition findContextAfterPosition (lines contextAfter : list string)
  (startFrom : nat) : option nat :=
  findAfter_loop lines contextAfter startFrom
    (Nat.min (length lines) (startFrom + 20) - startFrom).

(** ** intelligentMerge *)

Definition WARNING_COMMENT : string :=
  "// ⚠️ WARNING: This block was preserved but context not found in main-app".

(** The warning pushed when no anchor is found. *)
Definition contextMissingWarning (block : ProtectedBlock) : MergeWarning :=
  {| type := "protected_block_context_missing";
     message :=
       ("Protected block at lines " ++ Js.ofNat (start block) ++ "-"
        ++ Js.ofNat (end_ block)
        ++ " has no matching context in main-app. Main may have removed this section.")%string;
     block := Js.substring0 100 (content block) ++ Js.units "..." |}.

(** The return value of [intelligentMerge]. *)
Record MergeResult := {
  merged : string;
  warnings : list MergeWarning
}.

(** One iteration of [for (const block of protectedBlocks)], on the working
    array [result] and the [warnings] collected so far. *)
Definition merge_step (cfg : ProtectedBlocksConfig) (demoLines : list string)
  (st : list string * list MergeWarning) (b : ProtectedBlock)
  : option (list string * list MergeWarning) :=
  let '(result, warns) := st in
  match getContextBefore cfg demoLines (start b) 3 with
  | None => None
  | Some contextBefore =>
      match getContextAfter cfg demoLines (end_ b) 3 with
      | None => None
      | Some contextAfter =>
          match findInsertPosition result contextBefore contextAfter with
          | Some insertPosition =>
              let blockLines := Js.split (content b) in
              let replaceStart := insertPosition in
              match findContextAfterPosition result contextAfter replaceStart with
              | Some replaceEnd =>
                  Some (Js.splice result replaceStart
                          (replaceEnd - replaceStart) blockLines, warns)
              | None =>
                  Some (Js.splice result insertPosition 0 blockLines, warns)
              end
          | None =>
              Some (result ++ [EmptyString] ++ [WARNING_COMMENT]
                      ++ Js.split (content b),
                    warns ++ [contextMissingWarning b])
          end
      end
  end.

Fixpoint merge_loop (cfg : ProtectedBlocksConfig) (demoLines : list string)
  (protectedBlocks : list ProtectedBlock)
  (st : list string * list MergeWarning)
  : option (list string * list MergeWarning) :=
  match protectedBlocks with
  | [] => Some st
  | b :: bs =>
      match merge_step cfg demoLines st b with
      | None => None
      | Some st' => merge_loop cfg demoLines bs st'
      end
  end.

Definition intelligentMerge (cfg : ProtectedBlocksConfig)
  (mainContent demoContent : string) (protectedBlocks : list ProtectedBlock)
  : option MergeResult :=
  let mainLines := Js.split mainContent in
  let demoLines := Js.split demoContent in
  match merge_loop cfg demoLines protectedBlocks (mainLines, []) with
  | None => None
  | Some (result, warns) =>
      Some {| merged := Js.join result; warnings := warns |}
  end.

(** [smartMergeFile], as a function of the text of the main file and of the
    demo file if it exists: the text left in the demo file and the warnings
    logged for it.  Without protected blocks the main file is copied. *)
Definition smartMergeFile (cfg : ProtectedBlocksConfig) (mainContent : string)
  (demoFile : option string) : option MergeResult :=
  let demoContent :=
    match demoFile with
    | Some d => d
    | None => mainContent
    end in
  let protectedBlocks := extractProtectedBlocks cfg demoContent in
  if length protectedBlocks =? 0 then
    Some {| merged := mainContent; warnings := [] |}
  else
    intelligentMerge cfg mainContent demoContent protectedBlocks.

(** ** validateProtectedBlocks of the orchestrator *)

Record ValidationResult := {
  valid : bool;
  error : option string
}.

(** The [for (const line of lines)] loop on the counter [openBlocks]. *)
Fixpoint openBlocks_loop (cfg : ProtectedBlocksConfig) (lines : list string)
  (openBlocks : Z) : Z :=
  match lines with
  | [] => openBlocks
  | line :: rest =>
      let openBlocks1 :=
        if someIncludes (start_markers cfg) line
        then (openBlocks + 1)%Z else openBlocks in
      let openBlocks2 :=
        if someIncludes (end_markers cfg) line
        then (openBlocks1 - 1)%Z else openBlocks1 in
      openBlocks_loop cfg rest openBlocks2
  end.

Definition validateProtectedBlocks (cfg : ProtectedBlocksConfig)
  (content : string) : ValidationResult :=
  let openBlocks := openBlocks_loop cfg (Js.split content) 0%Z in
  if negb (openBlocks =? 0)%Z then
    {| valid := false;
       error := Some ("Unclosed protected blocks: "
                      ++ (if (0 <? openBlocks)%Z then "missing END"
                          else "missing START"))%string |}
  else {| valid := true; error := None |}.

(** ** SyncValidator *)

Module SyncValidator.

(** The objects pushed on [this.errors]; [line] is absent from some kinds
    of errors of the class. *)
Record ValidationError := {
  file : string;
  type : string;
  line : option nat;
  message : string
}.

Definition endWithoutStart (filePath : string) (i : nat) : ValidationError :=
  {| file := filePath;
     type := "protected_block";
     line := Some (i + 1);
     message := "INTENTIONAL-END without matching INTENTIONAL-START" |}.

Definition unclosed (filePath : string) (openBlocks : Z)
  (blockStarts : list nat) : ValidationError :=
  {| file := filePath;
     type := "protected_block";
     line := nth_error blockStarts (length blockStarts - 1);
     message := (Js.ofZ openBlocks
                 ++ " unclosed INTENTIONAL block(s) - missing INTENTIONAL-END")%string |}.

(** The [for] loop: [lines] is what is left to scan, [i] its index. *)
Fixpoint validate_loop (cfg : ProtectedBlocksConfig) (filePath : string)
  (lines : list string) (i : nat) (openBlocks : Z) (blockStarts : list nat)
  (errors : list ValidationError) : Z * list nat * list ValidationError :=
  match lines with
  | [] => (openBlocks, blockStarts, errors)
  | line :: rest =>
      let '(openBlocks1, blockStarts1) :=
        if someIncludes (start_markers cfg) line
        then ((openBlocks + 1)%Z, blockStarts ++ [i + 1])
        else (openBlocks, blockStarts) in
      if someIncludes (end_markers cfg) line then
        let openBlocks2 := (openBlocks1 - 1)%Z in
        if (openBlocks2 <? 0)%Z then
          validate_loop cfg filePath rest (S i) 0%Z blockStarts1
            (errors ++ [endWithoutStart filePath i])
        else
          validate_loop cfg filePath rest (S i) openBlocks2 blockStarts1
            errors
      else
        validate_loop cfg filePath rest (S i) openBlocks1 blockStarts1
          errors
  end.

(** [validateProtectedBlocks(filePath, content)]: [this.errors] after the
    call, from [this.errors] before it. *)
Definition validateProtectedBlocks (cfg : ProtectedBlocksConfig)
  (filePath content : string) (errors : list ValidationError)
  : list ValidationError :=
  let '(openBlocks, blockStarts, errors1) :=
    validate_loop cfg filePath (Js.split content) 0 0%Z [] errors in
  if (0 <? openBlocks)%Z then
    errors1 ++ [unclosed filePath openBlocks blockStarts]
  else errors1.

End SyncValidator.

(** ** mergeWithProtectedBlocks *)

(** The inner [while] loop of [mergeWithProtectedBlocks], followed by the
    [i++] that skips the end marker: what is left of [rest] after its first
    end-marker line. *)
Fixpoint skipToEnd (cfg : ProtectedBlocksConfig) (rest : list string)
  : list string :=
  match rest with
  | [] => []
  | line :: rest' =>
      if someIncludes (end_markers cfg) line then rest'
      else skipToEnd cfg rest'
  end.

(** The outer [while] loop: [rest] is [mainLines] from [i] on and [blocks]
    is [protectedBlocks] from [blockIndex] on.  The inner loop is run one
    line at a time, [skipping] telling that it is under way; see
    [mergeBlocks_loop_replace]. *)
Fixpoint mergeBlocks_loop (cfg : ProtectedBlocksConfig) (rest : list string)
  (skipping : bool) (blocks : list ProtectedBlock) (result : list string)
  : list string :=
  match rest with
  | [] => result
  | line :: rest' =>
      if skipping then
        if someIncludes (end_markers cfg) line
        then mergeBlocks_loop cfg rest' false blocks result
        else mergeBlocks_loop cfg rest' true blocks result
      else if someIncludes (start_markers cfg) line then
        match blocks with
        | b :: blocks' =>
            mergeBlocks_loop cfg rest' true blocks'
              (result ++ Js.split (content b))
        | [] => mergeBlocks_loop cfg rest' false [] (result ++ [line])
        end
      else mergeBlocks_loop cfg rest' false blocks (result ++ [line])
  end.

Definition mergeWithProtectedBlocks (cfg : ProtectedBlocksConfig)
  (mainContent : string) (protectedBlocks : list ProtectedBlock) : string :=
  Js.join (mergeBlocks_loop cfg (Js.split mainContent) false
             protectedBlocks []).

(** The earlier version of the orchestrator, whose [smartMergeFile] pairs
    the blocks of the two files by position. *)
Module Positional.

(** [smartMergeFile]: the text left in the demo file. *)
Definition smartMergeFile (cfg : ProtectedBlocksConfig) (mainContent : string)
  (demoFile : option string) : string :=
  let demoContent :=
    match demoFile with
    | Some d => d
    | None => mainContent
    end in
  let protectedBlocks := extractProtectedBlocks cfg demoContent in
  if length protectedBlocks =? 0 then mainContent
  else mergeWithProtectedBlocks cfg mainContent protectedBlocks.

End Positional.

(** ** hasProtectedBlocks *)

Definition hasProtectedBlocks (cfg : ProtectedBlocksConfig) (content : string)
  : bool :=
  existsb (fun marker => Js.includes content marker) (start_markers cfg).

(** ** SyncValidator.checkJavaScriptSyntax *)

Module JsSyntax.

(** The object [brackets]. *)
Definition brackets : list (ascii * ascii) :=
  [("("%char, ")"%char); ("["%char, "]"%char); ("{"%char, "}"%char)].

(** [Object.keys(brackets).includes(char)] *)
Definition isKey (char : ascii) : bool :=
  existsb (fun kv => Ascii.eqb (fst kv) char) brackets.

(** [Object.values(brackets).includes(char)] *)
Definition isValue (char : ascii) : bool :=
  existsb (fun kv => Ascii.eqb (snd kv) char) brackets.

(** [brackets[k] !== char] is false: the bracket [char] closes [k]. *)
Definition closes (k char : ascii) : bool :=
  match find (fun kv => Ascii.eqb (fst kv) k) brackets with
  | Some kv => Ascii.eqb (snd kv) char
  | None => false
  end.

(** The objects pushed on [stack]. *)
Record StackEntry := {
  char : ascii;
  pos : nat
}.

Definition unmatchedClosing (filePath : string) (c : ascii)
  : SyncValidator.ValidationError :=
  {| SyncValidator.file := filePath;
     SyncValidator.type := "syntax";
     SyncValidator.line := None;
     SyncValidator.message :=
       ("Unmatched closing bracket '" ++ String c "'")%string |}.

Definition mismatched (filePath : string) (k c : ascii)
  : SyncValidator.ValidationError :=
  {| SyncValidator.file := filePath;
     SyncValidator.type := "syntax";
     SyncValidator.line := None;
     SyncValidator.message :=
       ("Mismatched brackets: '" ++ String k "' and '" ++ String c "'")%string |}.

Definition unclosedBrackets (filePath : string) (n : nat)
  : SyncValidator.ValidationError :=
  {| SyncValidator.file := filePath;
     SyncValidator.type := "syntax";
     SyncValidator.line := None;
     SyncValidator.message := (Js.ofNat n ++ " unclosed bracket(s)")%string |}.

Definition useLetConst (filePath : string) (i : nat)
  : SyncValidator.ValidationError :=
  {| SyncValidator.file := filePath;
     SyncValidator.type := "best_practice";
     SyncValidator.line := Some (i + 1);
     SyncValidator.message := "Use let/const instead of var" |}.

Definition consoleStatement (filePath : string) (i : nat)
  : SyncValidator.ValidationError :=
  {| SyncValidator.file := filePath;
     SyncValidator.type := "debug_code";
     SyncValidator.line := Some (i + 1);
     SyncValidator.message :=
       "Console statement detected (might be debug code)" |}.

(** The loop over the characters of [content]: [rest] is what is left of
    it from index [i] on, the top of [stack] is its head.  A [break] ends
    the recursion.  No byte of a character outside ASCII is a bracket, and
    [pos] is never read. *)
Fixpoint bracket_loop (filePath : string) (rest : string) (i : nat)
  (stack : list StackEntry) (warnings : list SyncValidator.ValidationError)
  : list StackEntry * list SyncValidator.ValidationError :=
  match rest with
  | EmptyString => (stack, warnings)
  | String c rest' =>
      if isKey c then
        bracket_loop filePath rest' (S i) ({| char := c; pos := i |} :: stack)
          warnings
      else if isValue c then
        match stack with
        | [] => ([], warnings ++ [unmatchedClosing filePath c])
        | last :: stack' =>
            if negb (closes (char last) c) then
              (stack', warnings ++ [mismatched filePath (char last) c])
            else bracket_loop filePath rest' (S i) stack' warnings
        end
      else bracket_loop filePath rest' (S i) stack warnings
  end.

(** [line.match(/^\s*var\s+/)] *)
Definition matchesVar (line : string) : bool :=
  match Js.trimStart line with
  | String "v" (String "a" (String "r" rest)) => Js.startsWithWhiteSpace rest
  | _ => false
  end.

(** [line.match(/console\.(log|debug|info)/)] *)
Definition matchesConsole (line : string) : bool :=
  Js.includes line "console.log" || Js.includes line "console.debug"
  || Js.includes line "console.info".

(** The loop over the lines of [content]. *)
Fixpoint lines_loop (filePath : string) (lines : list string) (i : nat)
  (warnings : list SyncValidator.ValidationError)
  : list SyncValidator.ValidationError :=
  match lines with
  | [] => warnings
  | line :: rest =>
      let warnings1 :=
        if matchesVar line && negb (Js.includes line "//")
        then warnings ++ [useLetConst filePath i] else warnings in
      let warnings2 :=
        if matchesConsole line && negb (Js.includes line "//")
        then warnings1 ++ [consoleStatement filePath i] else warnings1 in
      lines_loop filePath rest (S i) warnings2
  end.

(** [checkJavaScriptSyntax(filePath, content)]: [this.warnings] after the
    call, from [this.warnings] before it. *)
Definition checkJavaScriptSyntax (filePath content : string)
  (warnings : list SyncValidator.ValidationError)
  : list SyncValidator.ValidationError :=
  let '(stack, warnings1) := bracket_loop filePath content 0 [] warnings in
  let warnings2 :=
    if 0 <? length stack
    then warnings1 ++ [unclosedBrackets filePath (length stack)]
    else warnings1 in
  lines_loop filePath (Js.split content) 0 warnings2.

(** The brackets of a text are balanced: every opening bracket is closed
    by the bracket of its kind, in the right order. *)
Inductive Balanced : string -> Prop :=
| Balanced_nil : Balanced EmptyString
| Balanced_other c s :
    isKey c = false -> isValue c = false ->
    Balanced s -> Balanced (String c s)
| Balanced_wrap k c s t :
    In (k, c) brackets ->
    Balanced s -> Balanced t ->
    Balanced (String k (s ++ String c t)).

(** A text that closes, from the top, the opening brackets [stack] and is
    balanced otherwise. *)
Inductive ClosesStack : list ascii -> string -> Prop :=
| ClosesStack_nil s : Balanced s -> ClosesStack [] s
| ClosesStack_cons k c stack s s' :
    In (k, c) brackets ->
    Balanced s -> ClosesStack stack s' ->
    ClosesStack (k :: stack) (s ++ String c s').

(** The stack of the loop over the characters, without the positions;
    [None] when the loop breaks. *)
Fixpoint run (rest : string) (stack : list ascii) : option (list ascii) :=
  match rest with
  | EmptyString => Some stack
  | String c rest' =>
      if isKey c then run rest' (c :: stack)
      else if isValue c then
        match stack with
        | [] => None
        | k :: stack' => if closes k c then run rest' stack' else None
        end
      else run rest' stack
  end.

End JsSyntax.

(** ** Default configurations *)

(** [getDefaultConfig().protected_blocks] of the orchestrator. *)
Definition defaultConfig : ProtectedBlocksConfig :=
  {| start_markers := ["{/* DEMO-INTENTIONAL-START */}"];
     end_markers := ["{/* DEMO-INTENTIONAL-END */}"] |}.

(** [getDefaultConfig().protected_blocks] of [SyncValidator]. *)
Definition validatorDefaultConfig : ProtectedBlocksConfig :=
  {| start_markers :=
       ["// INTENTIONAL-START"; "<!-- INTENTIONAL-START -->";
        "/* INTENTIONAL-START */"];
     end_markers :=
       ["// INTENTIONAL-END"; "<!-- INTENTIONAL-END -->";
        "/* INTENTIONAL-END */"] |}.

(** ** Notions used in the statements *)

(** The separator of lines. *)
Definition nl : string := String Js.LF EmptyString.

(** [a.slice(from, to)] *)
Definition slice {A} (a : list A) (from to : nat) : list A :=
  firstn (to - from) (skipn from a).

(** [block] occurs in [doc] as a run of consecutive lines. *)
Definition occursIn (block doc : list string) : Prop :=
  exists pre post, doc = pre ++ block ++ post.

(** A trimmed line that the context sampler keeps. *)
Definition eligible (cfg : ProtectedBlocksConfig) (line : string) : bool :=
  negb (Js.isEmpty line) && negb (isMarkerLine cfg line).

(** The lines of a window that the sampler keeps, trimmed. *)
Definition sampled (cfg : ProtectedBlocksConfig) (window : list string)
  : list string :=
  filter (eligible cfg) (map Js.trim window).

(** Number of lines containing one of [markers]. *)
Definition countMarked (markers lines : list string) : nat :=
  length (filter (someIncludes markers) lines).

(** A block of the document [lines] as the extractor is meant to emit it:
    from a start-marker line to the first later end-marker line, with the
    lines in between and the two marker lines as its content. *)
Record WellFormedBlock (cfg : ProtectedBlocksConfig) (lines : list string)
  (b : ProtectedBlock) : Prop := {
  wf_order : start b < end_ b;
  wf_range : end_ b < length lines;
  wf_start : exists l, nth_error lines (start b) = Some l
                       /\ someIncludes (start_markers cfg) l = true;
  wf_end : exists l, nth_error lines (end_ b) = Some l
                     /\ someIncludes (end_markers cfg) l = true;
  wf_first_end : forall k l, start b < k < end_ b ->
                   nth_error lines k = Some l ->
                   someIncludes (end_markers cfg) l = false;
  wf_content : content b = Js.join (slice lines (start b) (end_ b + 1))
}.

(** An end marker with no matching start: some prefix of the document has
    more end-marker lines than start-marker lines. *)
Definition unmatchedEnd (cfg : ProtectedBlocksConfig) (lines : list string)
  : Prop :=
  exists k, countMarked (start_markers cfg) (firstn k lines)
            < countMarked (end_markers cfg) (firstn k lines).

(** An unclosed start marker: some suffix of the document has more
    start-marker lines than end-marker lines. *)
Definition unclosedStart (cfg : ProtectedBlocksConfig) (lines : list string)
  : Prop :=
  exists k, countMarked (end_markers cfg) (skipn k lines)
            < countMarked (start_markers cfg) (skipn k lines).

(** A malformed document, after the wording of the error taxonomy: an
    unclosed start marker, or an end marker with no matching start. *)
Definition malformed (cfg : ProtectedBlocksConfig) (lines : list string)
  : Prop :=
  unclosedStart cfg lines \/ unmatchedEnd cfg lines.

(** No line after line [s] of the document contains an end marker. *)
Definition noEndAfter (cfg : ProtectedBlocksConfig) (lines : list string)
  (s : nat) : Prop :=
  forall k l, s < k -> nth_error lines k = Some l ->
              someIncludes (end_markers cfg) l = false.

(** Document order of two blocks that do not overlap. *)
Definition precedes (b b' : ProtectedBlock) : Prop := end_ b < start b'.

(** What the scan knows about a block it has opened when it reaches
    line [i]. *)
Definition openInv (cfg : ProtectedBlocksConfig) (lines : list string)
  (i : nat) (st : ExtractState) : Prop :=
  inBlock st = true ->
  blockStart st < i
  /\ (exists l, nth_error lines (blockStart st) = Some l
                /\ someIncludes (start_markers cfg) l = true)
  /\ currentBlock st = slice lines (blockStart st) i
  /\ (forall k l, blockStart st < k < i -> nth_error lines k = Some l ->
                  someIncludes (end_markers cfg) l = false).

(** Where a block emitted from line [i] on in state [st] can start. *)
Definition startsFrom (i : nat) (st : ExtractState) (b : ProtectedBlock)
  : Prop :=
  (inBlock st = true /\ start b = blockStart st) \/ i <= start b.

(** A document written as its lines. *)
Definition document (lines : list string) : string := Js.join lines.

(** Start-marker lines minus end-marker lines. *)
Definition net (cfg : ProtectedBlocksConfig) (lines : list string) : Z :=
  (Z.of_nat (countMarked (start_markers cfg) lines)
   - Z.of_nat (countMarked (end_markers cfg) lines))%Z.

(** A line number reported for line [k] of [lines], counted from 1, where
    the line contains one of [markers]. *)
Definition reportsMarker (markers lines : list string) (n : nat) : Prop :=
  exists k l, n = k + 1 /\ nth_error lines k = Some l
              /\ someIncludes markers l = true.

(** The first position of [candidates] at which [context] matches. *)
Definition firstMatch (lines context : list string) (skipEmpty : bool)
  (candidates : list nat) : option nat :=
  find (fun i => matchesContext lines i context skipEmpty) candidates.

(** ** Example documents *)

(** A derivative with a start marker inside a block and a block left open
    at its end. *)
Definition doc_nested : string :=
  document ["a"; "{/* DEMO-INTENTIONAL-START */}"; "P";
            "{/* DEMO-INTENTIONAL-START */}"; "Q";
            "{/* DEMO-INTENTIONAL-END */}"; "c";
            "{/* DEMO-INTENTIONAL-START */}"; "R"].

(** The block that the extractor finds in [doc_nested]. *)
Definition block_nested : ProtectedBlock :=
  {| start := 1; end_ := 5;
     content := document ["{/* DEMO-INTENTIONAL-START */}"; "P";
                          "{/* DEMO-INTENTIONAL-START */}"; "Q";
                          "{/* DEMO-INTENTIONAL-END */}"] |}.

(** A derivative whose only start marker is never closed. *)
Definition D_open : list string :=
  ["a"; "b"; "c"; "{/* DEMO-INTENTIONAL-START */}"; "d"].

(** Lines of a derivative whose block is preceded by three blank lines. *)
Definition doc_blank_lines : list string :=
  ["a"; "b"; "c"; ""; ""; "";
   "{/* DEMO-INTENTIONAL-START */}"; "P"; "{/* DEMO-INTENTIONAL-END */}";
   "  d  "].

(** The context-anchoring example: source, derivative and its block. *)
Definition S_anchor : list string := ["a"; "b"; "X"; "c"; "d"].

Definition D_anchor : list string :=
  ["a"; "b"; "{/* DEMO-INTENTIONAL-START */}"; "P";
   "{/* DEMO-INTENTIONAL-END */}"; "c"; "d"].

Definition block_anchor : ProtectedBlock :=
  {| start := 2; end_ := 4;
     content := document ["{/* DEMO-INTENTIONAL-START */}"; "P";
                          "{/* DEMO-INTENTIONAL-END */}"] |}.

(** A source that has lost the context of the block. *)
Definition S_removed : list string := ["a"; "X"; "d"].

(** A derivative that opens with a block, and its block. *)
Definition D_top : list string :=
  ["{/* DEMO-INTENTIONAL-START */}"; "P"; "{/* DEMO-INTENTIONAL-END */}";
   "c"].

Definition block_top : ProtectedBlock :=
  {| start := 0; end_ := 2;
     content := document ["{/* DEMO-INTENTIONAL-START */}"; "P";
                          "{/* DEMO-INTENTIONAL-END */}"] |}.

(** A source and a derivative with two blocks, each after a line ["<li>"],
    with blank lines between them; and the two blocks. *)
Definition S_overlap : list string := ["<li>"; ""; ""; "<li>"; "</ul>"].

Definition D_overlap : list string :=
  ["<li>";
   "{/* DEMO-INTENTIONAL-START */}"; "one"; "{/* DEMO-INTENTIONAL-END */}";
   ""; ""; "<li>";
   "{/* DEMO-INTENTIONAL-START */}"; "two"; "{/* DEMO-INTENTIONAL-END */}";
   "</ul>"].

Definition block_one : ProtectedBlock :=
  {| start := 1; end_ := 3;
     content := document ["{/* DEMO-INTENTIONAL-START */}"; "one";
                          "{/* DEMO-INTENTIONAL-END */}"] |}.

Definition block_two : ProtectedBlock :=
  {| start := 7; end_ := 9;
     content := document ["{/* DEMO-INTENTIONAL-START */}"; "two";
                          "{/* DEMO-INTENTIONAL-END */}"] |}.

(** What the merge of [S_overlap] and [D_overlap] leaves in the demo file. *)
Definition merged_overlap : list string :=
  ["<li>";
   "{/* DEMO-INTENTIONAL-START */}"; "two"; "{/* DEMO-INTENTIONAL-END */}";
   ""; ""; "<li>"; "</ul>"].

(** A source from which the lines around the first block of the derivative
    are gone, a derivative with two blocks, and the two blocks: the lines
    after the second block are those inside the first. *)
Definition S_lost : list string := ["a"; "b"; "c"; "d"].

Definition D_lost : list string :=
  ["q";
   "{/* DEMO-INTENTIONAL-START */}"; "alpha()"; "beta()";
   "{/* DEMO-INTENTIONAL-END */}";
   ""; ""; "a";
   "{/* DEMO-INTENTIONAL-START */}"; "y"; "{/* DEMO-INTENTIONAL-END */}";
   "alpha()"; "beta()"].

Definition block_lost : ProtectedBlock :=
  {| start := 1; end_ := 4;
     content := document ["{/* DEMO-INTENTIONAL-START */}"; "alpha()";
                          "beta()"; "{/* DEMO-INTENTIONAL-END */}"] |}.

Definition block_kept : ProtectedBlock :=
  {| start := 8; end_ := 10;
     content := document ["{/* DEMO-INTENTIONAL-START */}"; "y";
                          "{/* DEMO-INTENTIONAL-END */}"] |}.

(** The working document after the step of [block_lost], and what the merge
    of [S_lost] and [D_lost] leaves in the demo file. *)
Definition appended_lost : list string :=
  ["a"; "b"; "c"; "d"; "";
   WARNING_COMMENT;
   "{/* DEMO-INTENTIONAL-START */}"; "alpha()"; "beta()";
   "{/* DEMO-INTENTIONAL-END */}"].

Definition merged_lost : list string :=
  ["a";
   "{/* DEMO-INTENTIONAL-START */}"; "y"; "{/* DEMO-INTENTIONAL-END */}";
   "alpha()"; "beta()"; "{/* DEMO-INTENTIONAL-END */}"].

(** White space outside ASCII: the no-break space U+00A0 and the em space
    U+2003. *)
Definition NBSP : string := Js.ofBytes [194; 160].

Definition EM_SPACE : string := Js.ofBytes [226; 128; 131].

(** A block after a line of a no-break space and a line with em spaces
    around its text. *)
Definition doc_unicode_blank : list string :=
  [NBSP; (EM_SPACE ++ "x" ++ EM_SPACE)%string;
   "{/* DEMO-INTENTIONAL-START */}"; "P"; "{/* DEMO-INTENTIONAL-END */}"].

(** A start marker inside a block, and the block that the extractor
    finds. *)
Definition doc_inner_start : string :=
  document ["{/* DEMO-INTENTIONAL-START */}"; "KEEP-ME";
            "{/* DEMO-INTENTIONAL-START */}"; "Q";
            "{/* DEMO-INTENTIONAL-END */}"].

Definition block_inner_start : ProtectedBlock :=
  {| start := 0; end_ := 4; content := doc_inner_start |}.

(** A block whose content is longer than 100 code units: after the start
    marker and the line feed, 68 letters U+00E9 of two bytes and one code
    unit each, then U+1F600 of four bytes and two code units, of which the
    preview keeps the first. *)
Definition line_long : string :=
  (Js.ofBytes (concat (repeat [195; 169] 68))
   ++ Js.ofBytes [240; 159; 152; 128] ++ " and more")%string.

Definition D_long : list string :=
  ["a"; "b"; "{/* DEMO-INTENTIONAL-START */}"; line_long;
   "{/* DEMO-INTENTIONAL-END */}"; "c"; "d"].

Definition block_long : ProtectedBlock :=
  {| start := 2; end_ := 4;
     content := document ["{/* DEMO-INTENTIONAL-START */}"; line_long;
                          "{/* DEMO-INTENTIONAL-END */}"] |}.

(** Two lines with [var] and white space outside ASCII. *)
Definition doc_var_unicode : string :=
  document [(NBSP ++ "var x = 1")%string; ("var" ++ NBSP ++ "y = 2")%string;
            "variable = 3"].

(** A document with an end marker before its only start marker. *)
Definition doc_misordered : string :=
  document ["{/* DEMO-INTENTIONAL-END */}"; "x";
            "{/* DEMO-INTENTIONAL-START */}"].

(** A document with one start marker and no end marker. *)
Definition doc_unclosed : string :=
  document ["a"; "b"; "{/* DEMO-INTENTIONAL-START */}"; "P"; "c"; "d"].

(** ** Notions used in the further properties *)

(** Some start-marker line of the document has an end-marker line after
    it. *)
Definition hasClosedPair (cfg : ProtectedBlocksConfig) (lines : list string)
  : Prop :=
  exists s e l l',
    s < e
    /\ nth_error lines s = Some l
    /\ someIncludes (start_markers cfg) l = true
    /\ nth_error lines e = Some l'
    /\ someIncludes (end_markers cfg) l' = true.

(** A line that is not blank once trimmed. *)
Definition nonBlank (l : string) : bool := negb (Js.isEmpty (Js.trim l)).


(** Where a line of the working document of the merge can come from: the
    source, one of the blocks, or the two lines that introduce a block
    appended for want of an anchor. *)
Definition lineOrigin (mainLines : list string) (blocks : list ProtectedBlock)
  (l : string) : Prop :=
  In l mainLines
  \/ (exists b, In b blocks /\ In l (Js.split (content b)))
  \/ l = EmptyString
  \/ l = WARNING_COMMENT.

(** What a warning pushed by the loop over the lines of [lines] says. *)
Definition lineWarning (lines : list string) (w : SyncValidator.ValidationError)
  : Prop :=
  exists k l,
    SyncValidator.line w = Some (k + 1)
    /\ nth_error lines k = Some l
    /\ Js.includes l "//" = false
    /\ ((SyncValidator.type w = "best_practice"
         /\ JsSyntax.matchesVar l = true)
        \/ (SyncValidator.type w = "debug_code"
            /\ JsSyntax.matchesConsole l = true)).

(** Every line of [lines] without ["//"] on which a test succeeds has its
    warning among [ws]. *)
Definition linesWarned (filePath : string) (lines : list string)
  (ws : list SyncValidator.ValidationError) : Prop :=
  forall k l,
    nth_error lines k = Some l ->
    Js.includes l "//" = false ->
    (JsSyntax.matchesVar l = true -> In (JsSyntax.useLetConst filePath k) ws)
    /\ (JsSyntax.matchesConsole l = true ->
        In (JsSyntax.consoleStatement filePath k) ws).

(** What a warning pushed by the bracket check says. *)
Definition bracketWarning (w : SyncValidator.ValidationError) : Prop :=
  SyncValidator.type w = "syntax" /\ SyncValidator.line w = None.

(** * Properties *)

(** ** Strings *)

Example trim_example :
  Js.trim (String (ascii_of_nat 9) "  return x;  ") = "return x;".
Proof. reflexivity. Qed.

(** The table of white space gives every character with its encoding. *)
Example whiteSpaces_code_points :
  Forall (fun w => Js.units (Js.ofBytes (snd w)) = [fst w]) Js.whiteSpaces.
Proof. repeat constructor. Qed.

Example trim_unicode_example :
  Js.trim (NBSP ++ EM_SPACE ++ " x" ++ NBSP ++ "y " ++ Js.ofBytes [239; 187; 191]
           ++ Js.ofBytes [226; 128; 168])%string
  = ("x" ++ NBSP ++ "y")%string
  /\ Js.trim NBSP = ""
  /\ Js.trim (EM_SPACE ++ "x" ++ EM_SPACE)%string = "x"
  /\ Js.trim (Js.ofBytes [226; 128; 139]) = Js.ofBytes [226; 128; 139].
Proof. repeat split. Qed.

(** One, two, three and four bytes: one code unit, and a surrogate pair
    for U+1F600. *)
Example units_example :
  Js.units ("a" ++ Js.ofBytes [195; 169] ++ Js.ofBytes [226; 154; 160]
            ++ Js.ofBytes [240; 159; 152; 128] ++ "z")%string
  = [97%N; 233%N; 9888%N; 55357%N; 56832%N; 122%N].
Proof. reflexivity. Qed.

(** [trimStart] removes every white-space character in front, and nothing
    else. *)
Lemma trimStart_whiteSpace :
  Forall (fun w => forall s,
            Js.trimStart (Js.ofBytes (snd w) ++ s) = Js.trimStart s)
    Js.whiteSpaces.
Proof. repeat (constructor; [intros s; reflexivity|]). constructor. Qed.

Lemma trimStart_stop (s : string) :
  Js.startsWithWhiteSpace s = false -> Js.trimStart s = s.
Proof.
  destruct s as [|c1 [|c2 [|c3 s]]];
    cbn [Js.startsWithWhiteSpace Js.trimStart];
    repeat match goal with
           | |- context [Js.isWhiteSpaceChar ?x] =>
               destruct (Js.isWhiteSpaceChar x)
           end;
    cbn [orb]; intros H; try discriminate H; reflexivity.
Qed.

(** [trimEnd] removes every white-space character at the end. *)
Lemma trimEnd_whiteSpace :
  Forall (fun w => forall s,
            Js.trimEnd (s ++ Js.ofBytes (snd w)) = Js.trimEnd s)
    Js.whiteSpaces.
Proof.
  repeat (constructor;
          [intros s; induction s as [|c s IH];
           [reflexivity
           | cbn [append Js.trimEnd]; cbn [append] in IH; rewrite IH;
             reflexivity]|]).
  constructor.
Qed.

Example split_example :
  Js.split (document ["a"; ""; "b"; ""]) = ["a"; ""; "b"; ""].
Proof. reflexivity. Qed.

Example includes_example :
  Js.includes "<div> {/* DEMO-INTENTIONAL-END */}" "{/* DEMO-INTENTIONAL-END */}"
  = true
  /\ Js.includes "" "" = true
  /\ Js.includes "abc" "ac" = false.
Proof. repeat split. Qed.

Lemma prefix_iff (m s : string) :
  String.prefix m s = true <-> exists q, s = (m ++ q)%string.
Proof.
  revert s; induction m as [|a m IH]; intros s.
  - split; [intros _; exists s; reflexivity | intros _; destruct s; reflexivity].
  - destruct s as [|b s]; simpl.
    + split; [discriminate | intros [q Hq]; discriminate].
    + destruct (Ascii.ascii_dec a b) as [->|Hne].
      * rewrite IH. split; intros [q Hq]; exists q; [now rewrite Hq | congruence].
      * split; [discriminate | intros [q Hq]; congruence].
Qed.

Lemma includes_unfold (s m : string) :
  Js.includes s m =
  String.prefix m s ||
  match s with
  | EmptyString => false
  | String _ s' => Js.includes s' m
  end.
Proof. destruct s; reflexivity. Qed.

(** [includes] is the substring test. *)
Lemma includes_iff (s m : string) :
  Js.includes s m = true <-> exists p q, s = (p ++ m ++ q)%string.
Proof.
  split.
  - induction s as [|a s IH]; rewrite includes_unfold, orb_true_iff;
      intros [H|H]; try discriminate.
    + apply prefix_iff in H as [q Hq]. exists EmptyString, q. exact Hq.
    + apply prefix_iff in H as [q Hq]. exists EmptyString, q. exact Hq.
    + destruct (IH H) as (p & q & Hpq).
      exists (String a p), q. simpl. now rewrite Hpq.
  - intros (p & q & Hpq). revert s Hpq.
    induction p as [|a p IH]; intros s Hpq; rewrite includes_unfold.
    + apply orb_true_iff. left. apply prefix_iff. now exists q.
    + simpl in Hpq. subst s. apply orb_true_iff. right. now apply IH.
Qed.

Lemma includes_empty (s : string) : Js.includes s EmptyString = true.
Proof. apply includes_iff. exists EmptyString, s. reflexivity. Qed.

Lemma split_not_nil (s : string) : Js.split s <> [].
Proof.
  induction s as [|c s IH]; simpl; [discriminate|].
  destruct (Ascii.eqb c Js.LF); [discriminate|].
  destruct (Js.split s); discriminate.
Qed.

Lemma length_split_pos (s : string) : 0 < length (Js.split s).
Proof.
  pose proof (split_not_nil s). destruct (Js.split s); [congruence | simpl; lia].
Qed.

Lemma join_cons (l : string) (ls : list string) :
  ls <> [] -> Js.join (l :: ls) = (l ++ nl ++ Js.join ls)%string.
Proof. destruct ls; [congruence | reflexivity]. Qed.

(** Splitting a text and joining its lines gives the text back. *)
Lemma join_split (s : string) : Js.join (Js.split s) = s.
Proof.
  induction s as [|c s IH]; [reflexivity|]. simpl.
  destruct (Ascii.eqb c Js.LF) eqn:E.
  - apply Ascii.eqb_eq in E. subst c.
    rewrite join_cons by apply split_not_nil. now rewrite IH.
  - pose proof (split_not_nil s) as Hne.
    destruct (Js.split s) as [|l ls]; [congruence|].
    destruct ls as [|l' ls].
    + unfold Js.join in *. simpl in *. congruence.
    + change (Js.join (String c l :: l' :: ls))
        with (String c (Js.join (l :: l' :: ls))).
      now rewrite IH.
Qed.

Lemma split_noLF (s : string) :
  Forall (fun l => Js.hasLF l = false) (Js.split s).
Proof.
  induction s as [|c s IH]; simpl; [repeat constructor|].
  destruct (Ascii.eqb c Js.LF) eqn:E; [constructor; [reflexivity | exact IH]|].
  pose proof (split_not_nil s) as Hne.
  destruct (Js.split s) as [|l ls]; [congruence|].
  inversion IH; subst. constructor; [simpl; now rewrite E | assumption].
Qed.

Lemma split_single (l : string) : Js.hasLF l = false -> Js.split l = [l].
Proof.
  induction l as [|c l IH]; simpl; [reflexivity|].
  intros H. apply orb_false_iff in H as [E H]. rewrite E, (IH H). reflexivity.
Qed.

Lemma split_app_LF (l s : string) :
  Js.hasLF l = false -> Js.split (l ++ nl ++ s) = l :: Js.split s.
Proof.
  induction l as [|c l IH]; simpl; [reflexivity|].
  intros H. apply orb_false_iff in H as [E H]. rewrite E.
  change (String Js.LF s) with (nl ++ s)%string. now rewrite (IH H).
Qed.

(** Joining lines without line feeds and splitting gives the lines back. *)
Lemma split_join (ls : list string) :
  ls <> [] -> Forall (fun l => Js.hasLF l = false) ls ->
  Js.split (Js.join ls) = ls.
Proof.
  induction ls as [|l ls IH]; [congruence|]. intros _ H.
  inversion H as [|? ? Hl Hls]; subst.
  destruct ls as [|l' ls]; [now apply split_single|].
  rewrite join_cons by discriminate.
  rewrite split_app_LF by assumption. f_equal. now apply IH.
Qed.

(** ** Lists *)

Lemma skipn_cons_nth_error {A} (l : list A) (i : nat) (x : A) (r : list A) :
  skipn i l = x :: r -> nth_error l i = Some x /\ skipn (S i) l = r.
Proof.
  revert l; induction i as [|i IH]; intros [|y l] H; simpl in *;
    try discriminate.
  - inversion H; subst. split; reflexivity.
  - destruct (IH l H) as [H1 H2]. split; [exact H1|].
    destruct l; [destruct i; discriminate | exact H2].
Qed.

Lemma firstn_S_nth_error {A} (l : list A) (n : nat) (x : A) :
  nth_error l n = Some x -> firstn (S n) l = firstn n l ++ [x].
Proof.
  revert l; induction n as [|n IH]; intros [|y l] H; simpl in *;
    try discriminate.
  - inversion H; reflexivity.
  - f_equal. now apply IH.
Qed.

Lemma slice_snoc {A} (l : list A) (s i : nat) (x : A) :
  s <= i -> nth_error l i = Some x ->
  slice l s (S i) = slice l s i ++ [x].
Proof.
  intros Hs Hx. unfold slice.
  replace (S i - s) with (S (i - s)) by lia.
  apply firstn_S_nth_error. rewrite nth_error_skipn.
  now replace (s + (i - s)) with i by lia.
Qed.

Lemma slice_one {A} (l : list A) (i : nat) (x : A) :
  nth_error l i = Some x -> slice l i (S i) = [x].
Proof.
  intros Hx. unfold slice. replace (S i - i) with 1 by lia.
  rewrite (firstn_S_nth_error _ 0 x); [reflexivity|].
  rewrite nth_error_skipn. now rewrite Nat.add_0_r.
Qed.

Lemma slice_incl {A} (l : list A) (i j : nat) (x : A) :
  In x (slice l i j) -> In x l.
Proof.
  unfold slice. intros H.
  rewrite <- (firstn_skipn i l). apply in_or_app. right.
  rewrite <- (firstn_skipn (j - i) (skipn i l)). apply in_or_app. now left.
Qed.

Lemma StronglySorted_In {A} (R : A -> A -> Prop) (l : list A) (a b : A) :
  StronglySorted R l -> In a l -> In b l -> a = b \/ R a b \/ R b a.
Proof.
  induction 1 as [|x l Hs IH Hx]; intros Ha Hb; [contradiction|].
  rewrite Forall_forall in Hx.
  destruct Ha as [<-|Ha], Hb as [<-|Hb]; auto.
Qed.

(** ** The block extractor *)

Lemma extract_loop_acc cfg rest :
  forall i st blocks,
    extract_loop cfg rest i st blocks
    = blocks ++ extract_loop cfg rest i st [].
Proof.
  induction rest as [|line rest IH]; intros i st blocks; simpl.
  - now rewrite app_nil_r.
  - destruct (negb (inBlock st) && someIncludes (start_markers cfg) line);
      [apply IH|].
    destruct (inBlock st); [|apply IH].
    destruct (someIncludes (end_markers cfg) line); [|apply IH].
    rewrite IH. rewrite (IH _ _ [_]). now rewrite app_assoc.
Qed.

(** The initial value of [blockStart] is never read. *)
Lemma extract_loop_blockStart_irrelevant cfg rest i cur s s' blocks :
  extract_loop cfg rest i
    {| inBlock := false; currentBlock := cur; blockStart := s |} blocks
  = extract_loop cfg rest i
      {| inBlock := false; currentBlock := cur; blockStart := s' |} blocks.
Proof.
  revert i; induction rest as [|line rest IH]; intros i; simpl;
    [reflexivity|].
  destruct (someIncludes (start_markers cfg) line); [reflexivity | apply IH].
Qed.

Lemma extract_loop_spec cfg lines rest :
  forall i st,
    skipn i lines = rest ->
    openInv cfg lines i st ->
    let r := extract_loop cfg rest i st [] in
    Forall (WellFormedBlock cfg lines) r
    /\ StronglySorted precedes r
    /\ Forall (startsFrom i st) r.
Proof.
  induction rest as [|line rest IH]; intros i st Hskip Hinv; simpl.
  - repeat split; constructor.
  - destruct (skipn_cons_nth_error _ _ _ _ Hskip) as [Hline Hrest].
    assert (Hi : i < length lines)
      by (apply nth_error_Some; congruence).
    destruct st as [ib cur bs]. unfold openInv in Hinv. simpl in *.
    destruct ib; simpl.
    + destruct (Hinv eq_refl) as (Hlt & Hsm & Hcur & Hnoend).
      assert (Hcur' : cur ++ [line] = slice lines bs (S i))
        by (rewrite Hcur; symmetry; apply slice_snoc; [lia | exact Hline]).
      destruct (someIncludes (end_markers cfg) line) eqn:He.
      * rewrite extract_loop_acc. simpl.
        destruct (IH (S i) {| inBlock := false; currentBlock := [];
                              blockStart := bs |} Hrest) as (Hwf & Hso & Hst).
        { intros H; discriminate H. }
        assert (Hge : Forall (fun b => S i <= start b)
                        (extract_loop cfg rest (S i)
                           {| inBlock := false; currentBlock := [];
                              blockStart := bs |} [])).
        { eapply Forall_impl; [|exact Hst]. intros b [[H _]|H];
            [discriminate H | exact H]. }
        repeat split.
        -- constructor; [|exact Hwf].
           constructor; simpl; try assumption.
           ++ exists line. split; assumption.
           ++ rewrite Nat.add_1_r. now rewrite Hcur'.
        -- constructor; [exact Hso|].
           eapply Forall_impl; [|exact Hge]. intros b Hb.
           unfold precedes. simpl in *. lia.
        -- constructor; [left; split; reflexivity|].
           eapply Forall_impl; [|exact Hge]. intros b Hb.
           right. simpl in Hb. lia.
      * destruct (IH (S i) {| inBlock := true; currentBlock := cur ++ [line];
                              blockStart := bs |} Hrest) as (Hwf & Hso & Hst).
        { intros _. simpl. split; [lia|]. split; [exact Hsm|].
          split; [exact Hcur'|].
          intros k l Hk Hl. destruct (Nat.eq_dec k i) as [->|Hne].
          - congruence.
          - apply (Hnoend k l); [lia | exact Hl]. }
        repeat split; try assumption.
        eapply Forall_impl; [|exact Hst]. intros b [[_ H]|H];
          [left; split; [reflexivity | exact H] | right; lia].
    + destruct (someIncludes (start_markers cfg) line) eqn:Hs; simpl.
      * destruct (IH (S i) {| inBlock := true; currentBlock := [line];
                              blockStart := i |} Hrest) as (Hwf & Hso & Hst).
        { intros _. simpl. split; [lia|]. split; [|split].
          - exists line. split; assumption.
          - symmetry. now apply slice_one.
          - intros k l Hk. lia. }
        repeat split; try assumption.
        eapply Forall_impl; [|exact Hst]. intros b [[_ H]|H];
          right; simpl in *; lia.
      * destruct (IH (S i) {| inBlock := false; currentBlock := cur;
                              blockStart := bs |} Hrest) as (Hwf & Hso & Hst).
        { intros H; discriminate H. }
        repeat split; try assumption.
        eapply Forall_impl; [|exact Hst]. intros b [[H _]|H];
          [discriminate H | right; lia].
Qed.

(** The scan emits a block around every start-marker line that has an
    end-marker line after it. *)
Lemma extract_loop_covers cfg lines k e lk le :
  nth_error lines k = Some lk ->
  someIncludes (start_markers cfg) lk = true ->
  k < e ->
  nth_error lines e = Some le ->
  someIncludes (end_markers cfg) le = true ->
  forall rest i st,
    skipn i lines = rest ->
    (inBlock st = true ->
     blockStart st < i
     /\ forall j l, blockStart st < j < i -> nth_error lines j = Some l ->
                    someIncludes (end_markers cfg) l = false) ->
    (i <= k \/ (inBlock st = true /\ blockStart st <= k < i)) ->
    exists b,
      In b (extract_loop cfg rest i st []) /\ start b <= k <= end_ b.
Proof.
  intros Hk Hks Hke He Hes.
  induction rest as [|line rest IH]; intros i st Hskip Hinv Hpos.
  - exfalso.
    assert (Hlen : length lines <= i).
    { pose proof (length_skipn i lines) as L. rewrite Hskip in L.
      simpl in L. lia. }
    assert (Hke' : e < length lines) by (apply nth_error_Some; congruence).
    assert (Hk' : k < length lines) by (apply nth_error_Some; congruence).
    destruct Hpos as [Hpos|[Hib Hpos]]; [lia|].
    destruct (Hinv Hib) as [_ Hno].
    rewrite (Hno e le) in Hes by (try assumption; lia). discriminate.
  - destruct (skipn_cons_nth_error _ _ _ _ Hskip) as [Hline Hrest].
    destruct st as [ib cur bs]. simpl in Hinv, Hpos. simpl.
    destruct ib; simpl.
    + destruct (Hinv eq_refl) as [Hbs Hno].
      destruct (someIncludes (end_markers cfg) line) eqn:Hend.
      * rewrite extract_loop_acc. simpl.
        destruct (le_lt_dec k i) as [Hle|Hgt].
        -- eexists. split; [left; reflexivity|]. simpl.
           destruct Hpos as [Hpos|[_ Hpos]]; lia.
        -- destruct (IH (S i) {| inBlock := false; currentBlock := [];
                                 blockStart := bs |} Hrest) as (b & Hb & Hc).
           ++ intros H; discriminate H.
           ++ left. lia.
           ++ exists b. split; [right; exact Hb | exact Hc].
      * apply IH; [exact Hrest | |].
        -- intros _. simpl. split; [lia|].
           intros j l Hj Hl. destruct (Nat.eq_dec j i) as [->|Hne];
             [congruence | apply (Hno j l); [lia | exact Hl]].
        -- simpl. destruct (le_lt_dec k i) as [Hle|Hgt];
             [right; split; [reflexivity|] | left; lia].
           destruct Hpos as [Hpos|[_ Hpos]]; lia.
    + destruct Hpos as [Hpos|[Hib _]]; [|discriminate].
      destruct (someIncludes (start_markers cfg) line) eqn:Hstart; simpl.
      * apply IH; [exact Hrest | |].
        -- intros _. simpl. split; [lia|]. intros j l Hj. lia.
        -- simpl. destruct (Nat.eq_dec k i) as [->|Hne];
             [right; split; [reflexivity | lia] | left; lia].
      * apply IH; [exact Hrest | intros H; discriminate H |].
        left. destruct (Nat.eq_dec k i) as [->|Hne]; [congruence | lia].
Qed.

(** The lines of a well-formed block of a document are the lines of the
    document from its [start] to its [end], both included. *)
Lemma WellFormedBlock_lines cfg doc b :
  WellFormedBlock cfg (Js.split doc) b ->
  Js.split (content b) = slice (Js.split doc) (start b) (end_ b + 1).
Proof.
  intros W. rewrite (wf_content _ _ _ W). apply split_join.
  - destruct (wf_end _ _ _ W) as (l & Hl & _).
    pose proof (wf_order _ _ _ W) as O.
    rewrite Nat.add_1_r, (slice_snoc _ _ _ l) by (first [lia | exact Hl]).
    intros H. apply app_eq_nil in H as [_ H]. discriminate H.
  - apply Forall_forall. intros l Hl. apply slice_incl in Hl.
    pose proof (split_noLF doc) as H. rewrite Forall_forall in H.
    now apply H.
Qed.

(** C7. Every block emitted by [extractProtectedBlocks] is well formed: it
    starts on a start-marker line, ends on the first later end-marker line
    and its content is, line by line, what the document has from the one to
    the other; no emitted block starts inside another one; and no emitted
    block reaches beyond a line after which the document has no end marker,
    so a block left open at the end of the scan is not emitted.  Every
    start-marker line with an end-marker line after it lies in an emitted
    block: met inside a block, it opens no block of its own and is a line of
    the content of the block that is open. *)
Theorem C7_extract_well_formed cfg doc :
  let lines := Js.split doc in
  let blocks := extractProtectedBlocks cfg doc in
  (forall b, In b blocks ->
     WellFormedBlock cfg lines b
     /\ Js.split (content b) = slice lines (start b) (end_ b + 1)
     /\ (forall b', In b' blocks -> ~ (start b < start b' <= end_ b))
     /\ (forall s, noEndAfter cfg lines s -> end_ b <= s))
  /\ (forall k lk e le,
        nth_error lines k = Some lk ->
        someIncludes (start_markers cfg) lk = true ->
        k < e ->
        nth_error lines e = Some le ->
        someIncludes (end_markers cfg) le = true ->
        exists b,
          In b blocks
          /\ start b <= k <= end_ b
          /\ nth_error (Js.split (content b)) (k - start b) = Some lk
          /\ (start b < k -> forall b', In b' blocks -> start b' <> k)).
Proof.
  intros lines blocks.
  destruct (extract_loop_spec cfg lines lines 0 extract_init eq_refl)
    as (Hwf & Hso & _); [intros H; discriminate H|].
  fold (extractProtectedBlocks cfg doc) in Hwf, Hso. fold blocks in Hwf, Hso.
  rewrite Forall_forall in Hwf.
  assert (Hin : forall b b', In b blocks -> In b' blocks ->
                             ~ (start b < start b' <= end_ b)).
  { intros b b' Hb Hb' [H1 H2].
    pose proof (wf_order _ _ _ (Hwf b' Hb')) as O'.
    destruct (StronglySorted_In _ _ b b' Hso Hb Hb') as [->|[H|H]];
      unfold precedes in *; lia. }
  split.
  - intros b Hb. pose proof (Hwf b Hb) as Wb.
    split; [exact Wb|]. split; [exact (WellFormedBlock_lines cfg doc b Wb)|].
    split; [intros b' Hb'; now apply Hin|].
    intros s Hs.
    destruct (wf_end _ _ _ Wb) as (l & Hl & He).
    destruct (le_lt_dec (end_ b) s) as [H|H]; [exact H|].
    rewrite (Hs _ _ H Hl) in He. discriminate.
  - intros k lk e le Hk Hks Hke He Hes.
    destruct (extract_loop_covers cfg lines k e lk le Hk Hks Hke He Hes
                lines 0 extract_init eq_refl) as (b & Hb & Hc);
      [intros H; discriminate H | left; lia |].
    fold (extractProtectedBlocks cfg doc) in Hb. fold blocks in Hb.
    exists b. split; [exact Hb|]. split; [exact Hc|]. split.
    + rewrite (WellFormedBlock_lines cfg doc b (Hwf b Hb)).
      fold lines. unfold slice. rewrite nth_error_firstn.
      destruct (Nat.ltb_spec (k - start b) (end_ b + 1 - start b)) as [_|H];
        [|lia].
      rewrite nth_error_skipn.
      now replace (start b + (k - start b)) with k by lia.
    + intros Hlt b' Hb' E. apply (Hin b b' Hb Hb'). lia.
Qed.

Lemma C7_extract_well_formed_witness :
  extractProtectedBlocks defaultConfig doc_nested = [block_nested]
  /\ (WellFormedBlock defaultConfig (Js.split doc_nested) block_nested
      /\ Js.split (content block_nested)
         = slice (Js.split doc_nested) (start block_nested)
             (end_ block_nested + 1)
      /\ (forall b', In b' (extractProtectedBlocks defaultConfig doc_nested) ->
                     ~ (start block_nested < start b' <= end_ block_nested))
      /\ (forall s, noEndAfter defaultConfig (Js.split doc_nested) s ->
                    end_ block_nested <= s))
  /\ exists b,
       In b (extractProtectedBlocks defaultConfig doc_nested)
       /\ start b <= 3 <= end_ b
       /\ nth_error (Js.split (content b)) (3 - start b)
          = Some "{/* DEMO-INTENTIONAL-START */}"
       /\ (start b < 3 ->
           forall b', In b' (extractProtectedBlocks defaultConfig doc_nested) ->
                      start b' <> 3).
Proof.
  split; [vm_compute; reflexivity|].
  destruct (C7_extract_well_formed defaultConfig doc_nested) as [H1 H2].
  split.
  - apply H1. vm_compute. left. reflexivity.
  - apply (H2 3 "{/* DEMO-INTENTIONAL-START */}" 5
             "{/* DEMO-INTENTIONAL-END */}"); try reflexivity. lia.
Defined.

(** A start marker inside a block opens nothing: one block, from the first
    start marker to the end marker. *)
Example extract_inner_start :
  extractProtectedBlocks defaultConfig doc_inner_start = [block_inner_start].
Proof. reflexivity. Qed.

(** ** The merge without protected blocks *)

(** C2. When the derivative has no protected block, the merge leaves the
    source text in the demo file and logs no warning; [intelligentMerge]
    itself, given no block, returns the source text and no warning. *)
Theorem C2_no_block_identity cfg S D :
  extractProtectedBlocks cfg D = [] ->
  smartMergeFile cfg S (Some D) = Some {| merged := S; warnings := [] |}
  /\ intelligentMerge cfg S D (extractProtectedBlocks cfg D)
     = Some {| merged := S; warnings := [] |}.
Proof.
  intros H. unfold smartMergeFile, intelligentMerge. rewrite H. simpl.
  now rewrite join_split.
Qed.

Lemma C2_no_block_identity_witness :
  extractProtectedBlocks defaultConfig (document D_open) = []
  /\ smartMergeFile defaultConfig (document S_anchor) (Some (document D_open))
     = Some {| merged := document S_anchor; warnings := [] |}
  /\ intelligentMerge defaultConfig (document S_anchor) (document D_open)
       (extractProtectedBlocks defaultConfig (document D_open))
     = Some {| merged := document S_anchor; warnings := [] |}.
Proof.
  split; [vm_compute; reflexivity|].
  apply (C2_no_block_identity defaultConfig (document S_anchor)
           (document D_open)).
  vm_compute. reflexivity.
Defined.

(** ** The context sampler *)

Lemma nth_error_skipn_cons {A} (l : list A) (i : nat) (x : A) :
  nth_error l i = Some x -> skipn i l = x :: skipn (S i) l.
Proof.
  revert l; induction i as [|i IH]; intros [|y l] H; simpl in *;
    try discriminate.
  - now inversion H.
  - rewrite (IH l H). destruct l; [destruct i; discriminate | reflexivity].
Qed.

Lemma slice_cons {A} (l : list A) (i n : nat) (x : A) :
  nth_error l i = Some x -> slice l i (i + S n) = x :: slice l (S i) (S i + n).
Proof.
  intros H. unfold slice.
  replace (i + S n - i) with (S n) by lia.
  replace (S i + n - S i) with n by lia.
  now rewrite (nth_error_skipn_cons _ _ _ H).
Qed.

Lemma sampled_cons cfg l w :
  sampled cfg (l :: w)
  = if eligible cfg (Js.trim l) then Js.trim l :: sampled cfg w
    else sampled cfg w.
Proof. reflexivity. Qed.

Lemma length_sampled cfg w : length (sampled cfg w) <= length w.
Proof.
  unfold sampled. etransitivity; [apply filter_length_le|].
  now rewrite length_map.
Qed.

Lemma length_slice {A} (l : list A) (i j : nat) : length (slice l i j) <= j - i.
Proof. unfold slice. rewrite length_firstn. lia. Qed.

(** The loop of the sampler keeps the eligible lines of the [n] lines from
    index [i], and fails only by reading past the end of the document. *)
Lemma context_loop_spec cfg lines n :
  forall i acc,
    n = 0 \/ i + n <= length lines ->
    context_loop cfg lines i n acc
    = Some (acc ++ sampled cfg (slice lines i (i + n))).
Proof.
  induction n as [|n IH]; intros i acc Hn; simpl.
  - unfold slice. rewrite Nat.add_0_r, Nat.sub_diag. simpl.
    now rewrite app_nil_r.
  - destruct Hn as [Hn|Hn]; [discriminate|].
    destruct (nth_error lines i) as [l|] eqn:Hl.
    + rewrite (slice_cons _ _ _ _ Hl), sampled_cons. unfold eligible at 1.
      destruct (negb (Js.isEmpty (Js.trim l))
                && negb (isMarkerLine cfg (Js.trim l)));
        rewrite IH by lia; [now rewrite <- app_assoc | reflexivity].
    + apply nth_error_None in Hl. lia.
Qed.

Lemma getContextBefore_spec cfg lines position count :
  position <= length lines ->
  getContextBefore cfg lines position count
  = Some (sampled cfg (slice lines (position - count) position)).
Proof.
  intros H. unfold getContextBefore. rewrite Nat.max_0_l.
  rewrite context_loop_spec by lia. simpl.
  now replace (position - count + (position - (position - count)))
    with position by lia.
Qed.

(** Reading past the end of the document makes the loop fail. *)
Lemma context_loop_out cfg lines n :
  forall i acc, 0 < n -> length lines < i + n ->
                context_loop cfg lines i n acc = None.
Proof.
  induction n as [|n IH]; intros i acc Hn Hi; [lia|]. simpl.
  destruct (nth_error lines i) as [l|] eqn:Hl; [|reflexivity].
  assert (i < length lines) by (apply nth_error_Some; congruence).
  destruct (negb (Js.isEmpty (Js.trim l))
            && negb (isMarkerLine cfg (Js.trim l))); apply IH; lia.
Qed.

(** [getContextBefore] throws on a position beyond the document. *)
Lemma getContextBefore_out cfg lines position count :
  length lines < position -> 0 < count ->
  getContextBefore cfg lines position count = None.
Proof.
  intros Hp Hc. unfold getContextBefore. rewrite Nat.max_0_l.
  apply context_loop_out; lia.
Qed.

Lemma slice_clip {A} (l : list A) (i j : nat) :
  slice l i (Nat.min (length l) j) = slice l i j.
Proof.
  unfold slice. destruct (le_lt_dec j (length l)) as [H|H].
  - now rewrite Nat.min_r by lia.
  - rewrite Nat.min_l by lia.
    rewrite !firstn_all2; try reflexivity; rewrite length_skipn; lia.
Qed.

Lemma getContextAfter_spec cfg lines position count :
  getContextAfter cfg lines position count
  = Some (sampled cfg (slice lines (position + 1) (position + count + 1))).
Proof.
  unfold getContextAfter.
  rewrite context_loop_spec by lia. simpl.
  rewrite <- (slice_clip lines (position + 1) (position + count + 1)).
  destruct (le_lt_dec (position + 1)
              (Nat.min (length lines) (position + count + 1))) as [H|H].
  - now replace (position + 1
                 + (Nat.min (length lines) (position + count + 1)
                    - (position + 1)))
      with (Nat.min (length lines) (position + count + 1)) by lia.
  - unfold slice.
    replace (position + 1
             + (Nat.min (length lines) (position + count + 1)
                - (position + 1)) - (position + 1)) with 0 by lia.
    now replace (Nat.min (length lines) (position + count + 1)
                 - (position + 1)) with 0 by lia.
Qed.

Lemma sampled_In cfg w l :
  In l (sampled cfg w)
  <-> eligible cfg l = true /\ exists x, In x w /\ l = Js.trim x.
Proof.
  unfold sampled. rewrite filter_In, in_map_iff. split.
  - intros [(x & Hx & Hw) He]. split; [exact He|]. now exists x.
  - intros [He (x & Hw & Hx)]. split; [now exists x | exact He].
Qed.

(** C6 as the code has it.  For a position inside the document, the sampled
    windows are the trimmed, non-empty, non-marker lines among the [count]
    lines just before the position and among the [count] lines just after
    it, in document order; blank and marker lines in that fixed range use up
    the budget, so each window has at most [count] lines. *)
Theorem C6_context_window cfg lines position count :
  position <= length lines ->
  let before := sampled cfg (slice lines (position - count) position) in
  let after := sampled cfg (slice lines (position + 1) (position + count + 1)) in
  getContextBefore cfg lines position count = Some before
  /\ getContextAfter cfg lines position count = Some after
  /\ length before <= count
  /\ length after <= count
  /\ (forall l, In l before \/ In l after ->
                eligible cfg l = true /\ exists x, In x lines /\ l = Js.trim x).
Proof.
  intros H before after. split; [now apply getContextBefore_spec|].
  split; [apply getContextAfter_spec|].
  split; [|split].
  - etransitivity; [apply length_sampled|].
    etransitivity; [apply length_slice|]. lia.
  - etransitivity; [apply length_sampled|].
    etransitivity; [apply length_slice|]. lia.
  - intros l [Hl|Hl]; apply sampled_In in Hl as [He (x & Hx & ->)];
      (split; [exact He|]); exists x; split; try reflexivity;
      eapply slice_incl; exact Hx.
Qed.

Lemma C6_context_window_witness :
  8 <= length doc_blank_lines
  /\ getContextBefore defaultConfig doc_blank_lines 6 3 = Some []
  /\ getContextAfter defaultConfig doc_blank_lines 8 3 = Some ["d"]
  /\ length (@nil string) <= 3
  /\ length ["d"] <= 3
  /\ (forall l, In l [] \/ In l ["d"] ->
                eligible defaultConfig l = true
                /\ exists x, In x doc_blank_lines /\ l = Js.trim x).
Proof.
  assert (H : 8 <= length doc_blank_lines) by (vm_compute; lia).
  split; [exact H|].
  pose proof (C6_context_window defaultConfig doc_blank_lines 6 3) as H6.
  pose proof (C6_context_window defaultConfig doc_blank_lines 8 3 H) as H8.
  destruct H6 as (Hb & _ & Lb & _ & Fb); [vm_compute; lia|].
  destruct H8 as (_ & Ha & _ & La & Fa).
  split; [exact Hb|]. split; [exact Ha|]. split; [exact Lb|].
  split; [exact La|].
  intros l [Hl|Hl]; [apply Fb; left; exact Hl | apply Fa; right; exact Hl].
Defined.

(** C6, counterexample.  Three blank lines before the block exhaust a
    window of three: the sampled window is empty, although the three lines
    before them are eligible and lie within three times the window. *)
Lemma C6_budget_counterexample :
  getContextBefore defaultConfig doc_blank_lines 6 3 = Some []
  /\ sampled defaultConfig (slice doc_blank_lines (6 - 3 * 3) 6)
     = ["a"; "b"; "c"].
Proof. split; vm_compute; reflexivity. Qed.

(** White space outside ASCII is white space to the sampler: a line of a
    no-break space is blank, and em spaces around a text are trimmed. *)
Example getContextBefore_unicode_blank :
  getContextBefore defaultConfig doc_unicode_blank 2 3 = Some ["x"]
  /\ sampled defaultConfig (slice doc_unicode_blank (2 - 3) 2) = ["x"].
Proof. split; reflexivity. Qed.

(** ** The anchor locator *)

Lemma find_seq_Some (f : nat -> bool) (n : nat) :
  forall i k, find f (seq i n) = Some k ->
    i <= k < i + n /\ f k = true /\ forall j, i <= j < k -> f j = false.
Proof.
  induction n as [|n IH]; intros i k; simpl; [discriminate|].
  destruct (f i) eqn:Hi.
  - intros H; inversion H; subst. split; [lia|]. split; [exact Hi|].
    intros j Hj; lia.
  - intros H. destruct (IH _ _ H) as (Hk & Hfk & Hlt).
    split; [lia|]. split; [exact Hfk|].
    intros j Hj. destruct (Nat.eq_dec j i) as [->|Hne]; [exact Hi|].
    apply Hlt; lia.
Qed.

Lemma find_seq_None (f : nat -> bool) (n : nat) :
  forall i, find f (seq i n) = None ->
    forall j, i <= j < i + n -> f j = false.
Proof.
  induction n as [|n IH]; intros i; simpl; [intros _ j Hj; lia|].
  destruct (f i) eqn:Hi; [discriminate|].
  intros H j Hj. destruct (Nat.eq_dec j i) as [->|Hne]; [exact Hi|].
  apply (IH _ H); lia.
Qed.

(** The loop of [findContextAfterPosition] returns the first match of the
    scanned range. *)
Lemma findAfter_loop_find lines contextAfter n :
  forall i, findAfter_loop lines contextAfter i n
            = firstMatch lines contextAfter false (seq i n).
Proof.
  unfold firstMatch.
  induction n as [|n IH]; intros i; simpl; [reflexivity|].
  destruct (matchesContext lines i contextAfter false);
    [reflexivity | apply IH].
Qed.

(** Once [i + contextBefore.length] is out of range it stays so. *)
Lemma findInsert_loop_out lines contextBefore n :
  forall i, length lines <= i + length contextBefore ->
            findInsert_loop lines contextBefore i n = None.
Proof.
  induction n as [|n IH]; intros i Hi; simpl; [reflexivity|].
  destruct (Nat.ltb_spec (i + length contextBefore) (length lines)); [lia|].
  destruct (matchesContext lines i contextBefore true); apply IH; lia.
Qed.

(** The loop of [findInsertPosition] stops at the first match of the
    scanned range, whether or not it accepts it. *)
Lemma findInsert_loop_find lines contextBefore n :
  forall i, findInsert_loop lines contextBefore i n
            = match firstMatch lines contextBefore true (seq i n) with
              | Some k =>
                  if k + length contextBefore <? length lines
                  then Some (k + length contextBefore) else None
              | None => None
              end.
Proof.
  unfold firstMatch.
  induction n as [|n IH]; intros i; simpl; [reflexivity|].
  destruct (matchesContext lines i contextBefore true); [|apply IH].
  destruct (Nat.ltb_spec (i + length contextBefore) (length lines));
    [reflexivity|].
  apply findInsert_loop_out. lia.
Qed.

(** No match anywhere gives no anchor. *)
Lemma findInsertPosition_no_match lines contextBefore contextAfter :
  (forall j, j < length lines ->
             matchesContext lines j contextBefore true = false) ->
  findInsertPosition lines contextBefore contextAfter = None.
Proof.
  intros H. unfold findInsertPosition. rewrite findInsert_loop_find.
  unfold firstMatch.
  destruct (find _ _) as [k|] eqn:Hk; [|reflexivity].
  apply find_seq_Some in Hk as (Hr & Hm & _).
  rewrite H in Hm by lia. discriminate.
Qed.

(** C4 as the code has it.  The locator looks for the first position [i]
    at which the before-context matches.  It answers [i] plus the length of
    the context when that index is still inside the document, and answers
    not found when no position matches or when the index after the first
    match is at or beyond the end of the document. *)
Theorem C4_first_match_anchor lines contextBefore contextAfter :
  match findInsertPosition lines contextBefore contextAfter with
  | Some p =>
      exists i, p = i + length contextBefore /\ p < length lines
                /\ matchesContext lines i contextBefore true = true
                /\ forall j, j < i ->
                     matchesContext lines j contextBefore true = false
  | None =>
      (forall j, j < length lines ->
                 matchesContext lines j contextBefore true = false)
      \/ exists i, i < length lines
                   /\ length lines <= i + length contextBefore
                   /\ matchesContext lines i contextBefore true = true
                   /\ forall j, j < i ->
                        matchesContext lines j contextBefore true = false
  end.
Proof.
  unfold findInsertPosition. rewrite findInsert_loop_find. unfold firstMatch.
  destruct (find _ _) as [k|] eqn:Hk.
  - apply find_seq_Some in Hk as (Hr & Hm & Hlt).
    destruct (Nat.ltb_spec (k + length contextBefore) (length lines)).
    + exists k. repeat split; try assumption. intros j Hj. apply Hlt. lia.
    + right. exists k. repeat split; try assumption; try lia.
      intros j Hj. apply Hlt. lia.
  - left. intros j Hj. apply (find_seq_None _ _ _ Hk). lia.
Qed.

(** C4, counterexample.  The before-context of a block that closes the
    derivative matches the last lines of the source at position 0, yet the
    locator answers not found instead of position 2. *)
Lemma C4_last_line_counterexample :
  matchesContext ["header"; "footer"] 0 ["header"; "footer"] true = true
  /\ findInsertPosition ["header"; "footer"] ["header"; "footer"] [] = None.
Proof. split; reflexivity. Qed.

(** A match at 0 and at 2: the earliest is taken. *)
Example findInsertPosition_earliest :
  findInsertPosition ["x"; "y"; "x"; "z"] ["x"] [] = Some 1.
Proof. reflexivity. Qed.

Lemma findContextAfterPosition_Some lines contextAfter p e :
  findContextAfterPosition lines contextAfter p = Some e ->
  p <= e /\ e < p + 20 /\ e < length lines
  /\ matchesContext lines e contextAfter false = true
  /\ forall j, p <= j < e -> matchesContext lines j contextAfter false = false.
Proof.
  unfold findContextAfterPosition. rewrite findAfter_loop_find.
  unfold firstMatch. intros H.
  apply find_seq_Some in H as (Hr & Hm & Hlt).
  repeat split; try assumption; lia.
Qed.

Lemma findContextAfterPosition_None lines contextAfter p :
  findContextAfterPosition lines contextAfter p = None ->
  forall j, p <= j < Nat.min (length lines) (p + 20) ->
            matchesContext lines j contextAfter false = false.
Proof.
  unfold findContextAfterPosition. rewrite findAfter_loop_find.
  unfold firstMatch. intros H j Hj.
  apply (find_seq_None _ _ _ H). lia.
Qed.

(** ** The block reinserter *)

Lemma splice_span {A} (a items : list A) (p e : nat) :
  p <= e -> Js.splice a p (e - p) items = firstn p a ++ items ++ skipn e a.
Proof.
  intros H. unfold Js.splice. now replace (p + (e - p)) with e by lia.
Qed.

Lemma splice_insert {A} (a items : list A) (p : nat) :
  Js.splice a p 0 items = firstn p a ++ items ++ skipn p a.
Proof. unfold Js.splice. now rewrite Nat.add_0_r. Qed.

(** The step of the merge when an anchor is found: the block is put at
    the anchor and the working document resumes at most 20 lines further,
    without a warning. *)
Lemma merge_step_anchored cfg demoLines result warns b
  contextBefore contextAfter p :
  getContextBefore cfg demoLines (start b) 3 = Some contextBefore ->
  getContextAfter cfg demoLines (end_ b) 3 = Some contextAfter ->
  findInsertPosition result contextBefore contextAfter = Some p ->
  exists e,
    p <= e < p + 20
    /\ merge_step cfg demoLines (result, warns) b
       = Some (firstn p result ++ Js.split (content b) ++ skipn e result,
               warns).
Proof.
  intros Hb Ha Hp. unfold merge_step. rewrite Hb, Ha, Hp.
  destruct (findContextAfterPosition result contextAfter p) as [e|] eqn:He.
  - apply findContextAfterPosition_Some in He as (H1 & H2 & _).
    exists e. split; [lia|]. now rewrite splice_span.
  - exists p. split; [lia|]. now rewrite splice_insert.
Qed.

(** C5. When the before-context is anchored at [p], the after-context is
    looked for at the positions from [p] up to 20 lines further; the first
    match [e], if any, ends the span and the block replaces the lines from
    [p] up to [e]; without a match in that range the block is inserted at
    [p] and every line of the working document is kept. *)
Theorem C5_after_context_span cfg demoLines result warns b
  contextBefore contextAfter p :
  getContextBefore cfg demoLines (start b) 3 = Some contextBefore ->
  getContextAfter cfg demoLines (end_ b) 3 = Some contextAfter ->
  findInsertPosition result contextBefore contextAfter = Some p ->
  match findContextAfterPosition result contextAfter p with
  | Some e =>
      p <= e /\ e < p + 20 /\ e < length result
      /\ matchesContext result e contextAfter false = true
      /\ (forall j, p <= j < e ->
                    matchesContext result j contextAfter false = false)
      /\ merge_step cfg demoLines (result, warns) b
         = Some (firstn p result ++ Js.split (content b) ++ skipn e result,
                 warns)
  | None =>
      (forall j, p <= j < Nat.min (length result) (p + 20) ->
                 matchesContext result j contextAfter false = false)
      /\ merge_step cfg demoLines (result, warns) b
         = Some (firstn p result ++ Js.split (content b) ++ skipn p result,
                 warns)
  end.
Proof.
  intros Hb Ha Hp. unfold merge_step. rewrite Hb, Ha, Hp.
  destruct (findContextAfterPosition result contextAfter p) as [e|] eqn:He.
  - destruct (findContextAfterPosition_Some _ _ _ _ He)
      as (H1 & H2 & H3 & H4 & H5).
    repeat (split; [assumption|]). now rewrite splice_span.
  - split; [now apply findContextAfterPosition_None|].
    now rewrite splice_insert.
Qed.

Lemma C5_after_context_span_witness :
  getContextBefore defaultConfig D_anchor (start block_anchor) 3
  = Some ["a"; "b"]
  /\ getContextAfter defaultConfig D_anchor (end_ block_anchor) 3
     = Some ["c"; "d"]
  /\ findInsertPosition S_anchor ["a"; "b"] ["c"; "d"] = Some 2
  /\ findContextAfterPosition S_anchor ["c"; "d"] 2 = Some 3
  /\ merge_step defaultConfig D_anchor (S_anchor, []) block_anchor
     = Some (["a"; "b"; "{/* DEMO-INTENTIONAL-START */}"; "P";
              "{/* DEMO-INTENTIONAL-END */}"; "c"; "d"], []).
Proof.
  pose proof (C5_after_context_span defaultConfig D_anchor S_anchor []
                block_anchor ["a"; "b"] ["c"; "d"] 2
                eq_refl eq_refl eq_refl) as H.
  change (findContextAfterPosition S_anchor ["c"; "d"] 2) with (Some 3) in H.
  destruct H as (_ & _ & _ & _ & _ & H).
  repeat (split; [reflexivity|]). exact H.
Defined.

(** The preview of a warning: the first 100 code units of the content of
    the block and three full stops, whatever the length of the content. *)
Lemma contextMissingWarning_block b :
  block (contextMissingWarning b)
  = firstn 100 (Js.units (content b)) ++ [46%N; 46%N; 46%N]
  /\ length (block (contextMissingWarning b)) <= 103.
Proof.
  split; [reflexivity|].
  cbn [block contextMissingWarning]. unfold Js.substring0.
  rewrite length_app, length_firstn.
  change (length (Js.units "...")) with 3. lia.
Qed.

(** The preview of a content of 139 code units: the start marker, the line
    feed, 68 letters and the first half of the surrogate pair of U+1F600. *)
Example contextMissingWarning_long :
  length (Js.units (content block_long)) = 139
  /\ block (contextMissingWarning block_long)
     = Js.units "{/* DEMO-INTENTIONAL-START */}" ++ [10%N]
       ++ repeat 233%N 68 ++ [55357%N] ++ [46%N; 46%N; 46%N]
  /\ length (block (contextMissingWarning block_long)) = 103.
Proof. repeat split. Qed.

(** A short content is not cut. *)
Example contextMissingWarning_short :
  block (contextMissingWarning block_anchor)
  = Js.units (content block_anchor) ++ [46%N; 46%N; 46%N].
Proof. reflexivity. Qed.

(** The step of a block for which no anchor is found appends an empty
    line, the warning comment and the lines of the block to the working
    document, and adds one warning that names the [start] and [end] of the
    block and carries the first 100 code units of its content, followed by
    three full stops. *)
Lemma merge_step_not_found cfg demoLines result warns b
  contextBefore contextAfter :
  getContextBefore cfg demoLines (start b) 3 = Some contextBefore ->
  getContextAfter cfg demoLines (end_ b) 3 = Some contextAfter ->
  findInsertPosition result contextBefore contextAfter = None ->
  exists result' w,
    merge_step cfg demoLines (result, warns) b = Some (result', warns ++ [w])
    /\ result' = result ++ [EmptyString; WARNING_COMMENT]
                        ++ Js.split (content b)
    /\ length result' = length result + 2 + length (Js.split (content b))
    /\ type w = "protected_block_context_missing"
    /\ message w
       = ("Protected block at lines " ++ Js.ofNat (start b) ++ "-"
          ++ Js.ofNat (end_ b)
          ++ " has no matching context in main-app. Main may have removed this section.")%string
    /\ block w = firstn 100 (Js.units (content b)) ++ [46%N; 46%N; 46%N]
    /\ length (block w) <= 103.
Proof.
  intros Hb Ha Hp. unfold merge_step. rewrite Hb, Ha, Hp.
  eexists. exists (contextMissingWarning b).
  split; [reflexivity|]. split; [reflexivity|].
  split; [rewrite !length_app; simpl; lia|].
  split; [reflexivity|]. split; [reflexivity|].
  apply contextMissingWarning_block.
Qed.

(** C3 on the code.  In the merge of [S_lost] and [D_lost] no anchor is
    found for the first block: its step appends an empty line, the warning
    comment and the block, and adds the warning.  The second block is then
    anchored after ["a"], and its span, which runs to the line ["alpha()"]
    of the appended block, replaces the empty line, the warning comment and
    the start of the appended block.  The warning is reported, but the text
    left in the demo file has neither the block nor the warning comment, and
    fewer lines than the source and the block together. *)
Theorem C3_appended_block_lost :
  extractProtectedBlocks defaultConfig (document D_lost)
  = [block_lost; block_kept]
  /\ getContextBefore defaultConfig D_lost (start block_lost) 3 = Some ["q"]
  /\ getContextAfter defaultConfig D_lost (end_ block_lost) 3 = Some ["a"]
  /\ findInsertPosition S_lost ["q"] ["a"] = None
  /\ merge_step defaultConfig D_lost (S_lost, []) block_lost
     = Some (appended_lost, [contextMissingWarning block_lost])
  /\ appended_lost
     = S_lost ++ [EmptyString; WARNING_COMMENT]
              ++ Js.split (content block_lost)
  /\ merge_step defaultConfig D_lost
       (appended_lost, [contextMissingWarning block_lost]) block_kept
     = Some (merged_lost, [contextMissingWarning block_lost])
  /\ smartMergeFile defaultConfig (document S_lost) (Some (document D_lost))
     = Some {| merged := document merged_lost;
               warnings := [contextMissingWarning block_lost] |}
  /\ Js.includes (document merged_lost) (content block_lost) = false
  /\ ~ In WARNING_COMMENT merged_lost
  /\ length merged_lost
     < length S_lost + length (Js.split (content block_lost)).
Proof.
  do 9 (split; [reflexivity|]). split.
  - unfold merged_lost. simpl. intros H.
    repeat (destruct H as [H|H]; [discriminate H|]). exact H.
  - vm_compute. lia.
Qed.


(** A block on the first line has an empty before-context. *)
Lemma getContextBefore_top cfg lines count :
  getContextBefore cfg lines 0 count = Some [].
Proof. reflexivity. Qed.

(** C10. In a working document with at least one line, an empty
    before-context is anchored at position 0: the step adds no warning and
    puts the lines of the block at the top of the working document, before
    what is left of it from the end of the span. *)
Theorem C10_empty_before_context cfg demoLines result warns b contextAfter :
  result <> [] ->
  getContextBefore cfg demoLines (start b) 3 = Some [] ->
  getContextAfter cfg demoLines (end_ b) 3 = Some contextAfter ->
  findInsertPosition result [] contextAfter = Some 0
  /\ exists e,
       e < 20
       /\ merge_step cfg demoLines (result, warns) b
          = Some (Js.split (content b) ++ skipn e result, warns).
Proof.
  intros Hne Hb Ha.
  assert (Hp : findInsertPosition result [] contextAfter = Some 0)
    by (destruct result; [congruence | reflexivity]).
  split; [exact Hp|].
  destruct (merge_step_anchored cfg demoLines result warns b []
              contextAfter 0 Hb Ha Hp) as (e & He & Hs).
  exists e. split; [lia | exact Hs].
Qed.

Lemma C10_empty_before_context_witness :
  (getContextBefore defaultConfig D_top (start block_top) 3 = Some []
   /\ getContextAfter defaultConfig D_top (end_ block_top) 3 = Some ["c"])
  /\ findInsertPosition ["a"; "c"] [] ["c"] = Some 0
  /\ exists e,
       e < 20
       /\ merge_step defaultConfig D_top (["a"; "c"], []) block_top
          = Some (Js.split (content block_top) ++ skipn e ["a"; "c"], []).
Proof.
  split; [split; reflexivity|].
  apply (C10_empty_before_context defaultConfig D_top ["a"; "c"] []
           block_top ["c"]); [discriminate | reflexivity | reflexivity].
Defined.

(** ** The validators *)

Lemma countMarked_cons markers line rest :
  countMarked markers (line :: rest)
  = (if someIncludes markers line then 1 else 0) + countMarked markers rest.
Proof.
  unfold countMarked. simpl. now destruct (someIncludes markers line).
Qed.

Lemma net_nil cfg : net cfg [] = 0%Z.
Proof. reflexivity. Qed.

Lemma net_cons cfg line rest :
  net cfg (line :: rest) = (net cfg [line] + net cfg rest)%Z.
Proof.
  unfold net. rewrite !countMarked_cons.
  assert (H0 : forall m, countMarked m [] = 0) by reflexivity.
  rewrite !H0.
  destruct (someIncludes (start_markers cfg) line),
           (someIncludes (end_markers cfg) line); lia.
Qed.

Lemma net_line cfg line :
  net cfg [line]
  = ((if someIncludes (start_markers cfg) line then 1 else 0)
     - (if someIncludes (end_markers cfg) line then 1 else 0))%Z.
Proof.
  unfold net. rewrite !countMarked_cons. unfold countMarked. simpl.
  destruct (someIncludes (start_markers cfg) line),
           (someIncludes (end_markers cfg) line); reflexivity.
Qed.

(** The counter of the orchestrator's validator ends at the difference of
    the two counts. *)
Lemma openBlocks_loop_net cfg lines :
  forall z, openBlocks_loop cfg lines z = (z + net cfg lines)%Z.
Proof.
  induction lines as [|line rest IH]; intros z; simpl.
  - rewrite net_nil. lia.
  - rewrite IH, (net_cons cfg line rest), net_line.
    destruct (someIncludes (start_markers cfg) line),
             (someIncludes (end_markers cfg) line); lia.
Qed.

Lemma unmatchedEnd_net cfg lines :
  unmatchedEnd cfg lines <-> exists k, (net cfg (firstn k lines) < 0)%Z.
Proof. unfold unmatchedEnd, net. split; intros [k H]; exists k; lia. Qed.

Lemma unclosedStart_net cfg lines :
  unclosedStart cfg lines <-> exists k, (0 < net cfg (skipn k lines))%Z.
Proof. unfold unclosedStart, net. split; intros [k H]; exists k; lia. Qed.

Lemma prefix_shift cfg line rest (ob : Z) :
  (0 <= ob)%Z ->
  (exists k, (ob + net cfg (firstn k (line :: rest)) < 0)%Z)
  <-> exists k, (ob + net cfg [line] + net cfg (firstn k rest) < 0)%Z.
Proof.
  intros Hob. split; intros [k H].
  - destruct k as [|k]; simpl in H; [rewrite net_nil in H; lia|].
    rewrite net_cons in H. exists k. lia.
  - exists (S k). simpl. rewrite net_cons. lia.
Qed.

Lemma suffix_shift cfg line rest (ob : Z) :
  (0 <= ob)%Z ->
  (0 < ob + net cfg (line :: rest)
   \/ exists k, 0 < net cfg (skipn k (line :: rest)))%Z
  <-> (0 < ob + net cfg [line] + net cfg rest
       \/ 0 < net cfg rest
       \/ exists k, 0 < net cfg (skipn k rest))%Z.
Proof.
  intros Hob. rewrite (net_cons cfg line rest). split.
  - intros [H|[k H]]; [left; lia|].
    destruct k as [|k]; simpl in H.
    + rewrite net_cons in H. left. lia.
    + right. right. now exists k.
  - intros [H|[H|[k H]]]; [left; lia | | right; now exists (S k)].
    right. now exists 1.
Qed.

(** One iteration of the loop of [SyncValidator.validateProtectedBlocks] on
    a counter that is not negative. *)
Lemma validate_loop_step cfg fp line rest i ob bs errs :
  (0 <= ob)%Z ->
  SyncValidator.validate_loop cfg fp (line :: rest) i ob bs errs
  = let bs1 := if someIncludes (start_markers cfg) line
               then bs ++ [i + 1] else bs in
    if (ob + net cfg [line] <? 0)%Z then
      SyncValidator.validate_loop cfg fp rest (S i) 0%Z bs1
        (errs ++ [SyncValidator.endWithoutStart fp i])
    else
      SyncValidator.validate_loop cfg fp rest (S i) (ob + net cfg [line])%Z
        bs1 errs.
Proof.
  intros Hob. simpl. rewrite net_line.
  destruct (someIncludes (start_markers cfg) line),
           (someIncludes (end_markers cfg) line); simpl.
  - now replace (ob + 1 - 1)%Z with (ob + 0)%Z by lia.
  - destruct (Z.ltb_spec (ob + 1) 0); [lia | reflexivity].
  - now replace (ob + -1)%Z with (ob - 1)%Z by lia.
  - rewrite Z.add_0_r. destruct (Z.ltb_spec ob 0); [lia | reflexivity].
Qed.

(** What the loop of [SyncValidator.validateProtectedBlocks] computes: it
    pushes an error exactly when some prefix has more end than start
    markers, and leaves a positive counter exactly when some suffix has
    more start than end markers. *)
Lemma validate_loop_spec cfg fp lines :
  forall i ob bs errs,
    (0 <= ob)%Z ->
    exists ob' bs' new,
      SyncValidator.validate_loop cfg fp lines i ob bs errs
      = (ob', bs', errs ++ new)
      /\ (0 <= ob')%Z
      /\ (new <> [] <-> exists k, (ob + net cfg (firstn k lines) < 0)%Z)
      /\ ((0 < ob')%Z
          <-> (0 < ob + net cfg lines
               \/ exists k, 0 < net cfg (skipn k lines))%Z).
Proof.
  induction lines as [|line rest IH]; intros i ob bs errs Hob.
  - exists ob, bs, []. simpl. rewrite app_nil_r, net_nil.
    split; [reflexivity|]. split; [exact Hob|]. split.
    + split; [congruence|]. intros [k H].
      rewrite firstn_nil, net_nil in H. lia.
    + split; [intros H; left; lia|].
      intros [H|[k H]]; [lia|]. rewrite skipn_nil, net_nil in H. lia.
  - rewrite validate_loop_step by exact Hob.
    setoid_rewrite (prefix_shift cfg line rest ob Hob).
    setoid_rewrite (suffix_shift cfg line rest ob Hob).
    cbv zeta.
    destruct (Z.ltb_spec (ob + net cfg [line]) 0) as [Hneg|Hpos].
    + destruct (IH (S i) 0%Z
                  (if someIncludes (start_markers cfg) line
                   then bs ++ [i + 1] else bs)
                  (errs ++ [SyncValidator.endWithoutStart fp i]))
        as (ob' & bs' & new & Heq & Hob' & _ & Hopen); [lia|].
      exists ob', bs', (SyncValidator.endWithoutStart fp i :: new).
      split; [rewrite Heq, <- app_assoc; reflexivity|].
      split; [exact Hob'|]. split.
      * split; [|discriminate]. intros _. exists 0. simpl.
        rewrite net_nil. lia.
      * rewrite Hopen. split.
        -- intros [H|H]; [right; left; lia | right; right; exact H].
        -- intros [H|[H|H]]; [left; lia | left; lia | right; exact H].
    + destruct (IH (S i) (ob + net cfg [line])%Z
                  (if someIncludes (start_markers cfg) line
                   then bs ++ [i + 1] else bs) errs)
        as (ob' & bs' & new & Heq & Hob' & Herr & Hopen); [lia|].
      exists ob', bs', new.
      split; [exact Heq|]. split; [exact Hob'|]. split; [exact Herr|].
      rewrite Hopen. split.
      * intros [H|H]; [left; exact H | right; right; exact H].
      * intros [H|[H|H]]; [left; exact H | | right; exact H].
        right. now exists 0.
Qed.

(** [SyncValidator.validateProtectedBlocks] pushes an error exactly on the
    malformed documents. *)
Lemma SyncValidator_malformed cfg fp content errs :
  exists new,
    SyncValidator.validateProtectedBlocks cfg fp content errs = errs ++ new
    /\ (new <> [] <-> malformed cfg (Js.split content)).
Proof.
  unfold SyncValidator.validateProtectedBlocks, malformed.
  setoid_rewrite unclosedStart_net. setoid_rewrite unmatchedEnd_net.
  destruct (validate_loop_spec cfg fp (Js.split content) 0 0%Z [] errs)
    as (ob' & bs' & new & Heq & Hob' & Herr & Hopen); [lia|].
  rewrite Heq. simpl in Herr, Hopen.
  destruct (Z.ltb_spec 0 ob') as [Hp|Hn].
  - exists (new ++ [SyncValidator.unclosed fp ob' bs']).
    split; [now rewrite app_assoc|].
    split; [|intros _ H; now apply app_eq_nil in H as [_ H]].
    intros _. left. apply Hopen in Hp as [H|H]; [now exists 0 | exact H].
  - exists new. split; [reflexivity|]. rewrite Herr. split.
    + intros H. right. exact H.
    + intros [[k H]|H]; [|exact H].
      assert (0 < ob')%Z by (apply Hopen; right; now exists k). lia.
Qed.

(** The orchestrator's validator compares the two counts. *)
Lemma validateProtectedBlocks_counts cfg content :
  validateProtectedBlocks cfg content
  = match Nat.compare (countMarked (start_markers cfg) (Js.split content))
                      (countMarked (end_markers cfg) (Js.split content)) with
    | Eq => {| valid := true; error := None |}
    | Gt => {| valid := false;
               error := Some "Unclosed protected blocks: missing END" |}
    | Lt => {| valid := false;
               error := Some "Unclosed protected blocks: missing START" |}
    end.
Proof.
  unfold validateProtectedBlocks. rewrite openBlocks_loop_net. unfold net.
  set (s := countMarked (start_markers cfg) (Js.split content)).
  set (e := countMarked (end_markers cfg) (Js.split content)).
  rewrite Z.add_0_l.
  destruct (Nat.compare_spec s e) as [H|H|H];
    destruct (Z.eqb_spec (Z.of_nat s - Z.of_nat e) 0) as [H0|H0];
    try lia; cbn [negb]; try reflexivity;
    destruct (Z.ltb_spec 0 (Z.of_nat s - Z.of_nat e));
    try lia; reflexivity.
Qed.

(** C8 as the code has it.  The orchestrator's validator declares a
    document invalid exactly when its start-marker lines and end-marker
    lines differ in number, with the message for a missing end when the
    starts are more and for a missing start when the ends are more; a
    document it declares invalid is malformed.  [SyncValidator] keeps a
    running counter instead and pushes an error exactly when the document
    is malformed. *)
Theorem C8_validators cfg content :
  let lines := Js.split content in
  let starts := countMarked (start_markers cfg) lines in
  let ends := countMarked (end_markers cfg) lines in
  (valid (validateProtectedBlocks cfg content) = false <-> starts <> ends)
  /\ (ends < starts ->
      error (validateProtectedBlocks cfg content)
      = Some "Unclosed protected blocks: missing END")
  /\ (starts < ends ->
      error (validateProtectedBlocks cfg content)
      = Some "Unclosed protected blocks: missing START")
  /\ (valid (validateProtectedBlocks cfg content) = false ->
      malformed cfg lines)
  /\ (forall filePath errors, exists new,
        SyncValidator.validateProtectedBlocks cfg filePath content errors
        = errors ++ new
        /\ (new <> [] <-> malformed cfg lines)).
Proof.
  intros lines starts ends. rewrite validateProtectedBlocks_counts.
  fold lines. fold starts. fold ends.
  destruct (Nat.compare_spec starts ends) as [H|H|H]; simpl.
  - split; [split; [discriminate | intros; lia]|].
    split; [intros; lia|]. split; [intros; lia|].
    split; [discriminate|]. intros fp errs. apply SyncValidator_malformed.
  - split; [split; [intros; lia | reflexivity]|].
    split; [intros; lia|]. split; [reflexivity|].
    split; [|intros fp errs; apply SyncValidator_malformed].
    intros _. right. exists (length lines). rewrite firstn_all. exact H.
  - split; [split; [intros; lia | reflexivity]|].
    split; [reflexivity|]. split; [intros; lia|].
    split; [|intros fp errs; apply SyncValidator_malformed].
    intros _. left. exists 0. exact H.
Qed.

Lemma C8_validators_witness :
  valid (validateProtectedBlocks defaultConfig doc_unclosed) = false
  /\ error (validateProtectedBlocks defaultConfig doc_unclosed)
     = Some "Unclosed protected blocks: missing END"
  /\ malformed defaultConfig (Js.split doc_unclosed)
  /\ exists new,
       SyncValidator.validateProtectedBlocks defaultConfig "src/App.js"
         doc_unclosed [] = [] ++ new
       /\ (new <> [] <-> malformed defaultConfig (Js.split doc_unclosed)).
Proof.
  destruct (C8_validators defaultConfig doc_unclosed)
    as (H1 & H2 & _ & H4 & H5).
  assert (Hv : valid (validateProtectedBlocks defaultConfig doc_unclosed)
               = false) by (apply H1; vm_compute; lia).
  split; [exact Hv|].
  split; [apply H2; vm_compute; lia|].
  split; [apply H4; exact Hv|].
  apply H5.
Defined.

(** C8, counterexample.  An end marker on the first line has no start
    before it and the start marker on the last line is never closed, yet
    the two counts agree and the orchestrator's validator accepts the
    document. *)
Lemma C8_misordered_counterexample :
  validateProtectedBlocks defaultConfig doc_misordered
  = {| valid := true; error := None |}
  /\ unmatchedEnd defaultConfig (Js.split doc_misordered)
  /\ unclosedStart defaultConfig (Js.split doc_misordered).
Proof.
  split; [reflexivity|]. split.
  - exists 1. vm_compute. lia.
  - exists 1. vm_compute. lia.
Qed.

(** On that document [SyncValidator] reports both defects. *)
Example SyncValidator_misordered :
  map SyncValidator.line
    (SyncValidator.validateProtectedBlocks defaultConfig "src/App.js"
       doc_misordered [])
  = [Some 1; Some 3].
Proof. reflexivity. Qed.

(** ** Line numbers in diagnostics *)

(** The loop of [SyncValidator.validateProtectedBlocks] records and reports
    marker lines by their number counted from 1. *)
Lemma validate_loop_lines cfg fp lines rest :
  forall i ob bs errs ob' bs' errs',
    skipn i lines = rest ->
    (ob <= Z.of_nat (length bs))%Z ->
    Forall (reportsMarker (start_markers cfg) lines) bs ->
    SyncValidator.validate_loop cfg fp rest i ob bs errs = (ob', bs', errs') ->
    (ob' <= Z.of_nat (length bs'))%Z
    /\ Forall (reportsMarker (start_markers cfg) lines) bs'
    /\ exists new,
         errs' = errs ++ new
         /\ Forall (fun e => exists n,
                      SyncValidator.line e = Some n
                      /\ reportsMarker (end_markers cfg) lines n) new.
Proof.
  induction rest as [|line rest IH];
    intros i ob bs errs ob' bs' errs' Hskip Hob Hbs; simpl.
  - intros H; inversion H; subst. split; [exact Hob|]. split; [exact Hbs|].
    exists []. split; [now rewrite app_nil_r | constructor].
  - destruct (skipn_cons_nth_error _ _ _ _ Hskip) as [Hline Hrest].
    set (ob1 := if someIncludes (start_markers cfg) line
                then (ob + 1)%Z else ob).
    set (bs1 := if someIncludes (start_markers cfg) line
                then bs ++ [i + 1] else bs).
    assert (Hob1 : (ob1 <= Z.of_nat (length bs1))%Z).
    { unfold ob1, bs1. destruct (someIncludes (start_markers cfg) line);
        [rewrite length_app; simpl; lia | exact Hob]. }
    assert (Hbs1 : Forall (reportsMarker (start_markers cfg) lines) bs1).
    { unfold bs1. destruct (someIncludes (start_markers cfg) line) eqn:Hs;
        [|exact Hbs].
      apply Forall_app. split; [exact Hbs|]. constructor; [|constructor].
      exists i, line. repeat split; assumption. }
    replace (if someIncludes (start_markers cfg) line
             then ((ob + 1)%Z, bs ++ [i + 1]) else (ob, bs))
      with (ob1, bs1)
      by (unfold ob1, bs1; now destruct (someIncludes (start_markers cfg) line)).
    clearbody ob1 bs1.
    destruct (someIncludes (end_markers cfg) line) eqn:He;
      [destruct (Z.ltb_spec (ob1 - 1) 0)|]; intros Hloop.
    + eapply IH in Hloop; [|exact Hrest | simpl; lia | exact Hbs1].
      destruct Hloop as (H1 & H2 & new & -> & Hnew).
      split; [exact H1|]. split; [exact H2|].
      exists (SyncValidator.endWithoutStart fp i :: new).
      split; [now rewrite <- app_assoc|].
      constructor; [|exact Hnew].
      exists (i + 1). split; [reflexivity|].
      exists i, line. repeat split; assumption.
    + eapply IH in Hloop; [exact Hloop | exact Hrest | lia | exact Hbs1].
    + eapply IH in Hloop; [exact Hloop | exact Hrest | lia | exact Hbs1].
Qed.

(** Every error pushed by [SyncValidator.validateProtectedBlocks] carries
    the number, counted from 1, of a marker line of the document. *)
Lemma SyncValidator_lines_from_one cfg fp content errs :
  exists new,
    SyncValidator.validateProtectedBlocks cfg fp content errs = errs ++ new
    /\ Forall (fun e => exists n,
                 SyncValidator.line e = Some n
                 /\ (reportsMarker (start_markers cfg) (Js.split content) n
                     \/ reportsMarker (end_markers cfg) (Js.split content) n))
         new.
Proof.
  unfold SyncValidator.validateProtectedBlocks.
  destruct (SyncValidator.validate_loop cfg fp (Js.split content) 0 0%Z []
              errs) as [[ob' bs'] errs'] eqn:E.
  destruct (validate_loop_lines cfg fp (Js.split content) (Js.split content)
              0 0%Z [] errs ob' bs' errs' eq_refl ltac:(simpl; lia)
              ltac:(constructor) E) as (Hob & Hbs & new & -> & Hnew).
  assert (Hnew' : Forall (fun e => exists n,
                 SyncValidator.line e = Some n
                 /\ (reportsMarker (start_markers cfg) (Js.split content) n
                     \/ reportsMarker (end_markers cfg) (Js.split content) n))
                    new).
  { eapply Forall_impl; [|exact Hnew]. intros e (n & Hn & Hr).
    exists n. split; [exact Hn | right; exact Hr]. }
  destruct (Z.ltb_spec 0 ob') as [Hp|Hn].
  - exists (new ++ [SyncValidator.unclosed fp ob' bs']).
    split; [now rewrite app_assoc|].
    apply Forall_app. split; [exact Hnew'|]. constructor; [|constructor].
    simpl.
    destruct (nth_error bs' (length bs' - 1)) as [n|] eqn:Hn.
    + exists n. split; [reflexivity|]. left.
      rewrite Forall_forall in Hbs. apply Hbs.
      eapply nth_error_In; exact Hn.
    + apply nth_error_None in Hn. lia.
  - exists new. split; [reflexivity | exact Hnew'].
Qed.


(** C9 on the code.  The block of [D_anchor] lies on the third to fifth
    line of the derivative, the warning of the merge names lines 2 to 4;
    [SyncValidator] reports the start marker of [doc_unclosed], on the same
    third line, as line 3. *)
Theorem C9_merge_warning_line_numbers :
  extractProtectedBlocks defaultConfig (document D_anchor) = [block_anchor]
  /\ nth_error D_anchor 2 = Some "{/* DEMO-INTENTIONAL-START */}"
  /\ nth_error D_anchor 4 = Some "{/* DEMO-INTENTIONAL-END */}"
  /\ option_map (fun r => map message (warnings r))
       (smartMergeFile defaultConfig (document S_removed)
          (Some (document D_anchor)))
     = Some ["Protected block at lines 2-4 has no matching context in main-app. Main may have removed this section."]
  /\ map SyncValidator.line
       (SyncValidator.validateProtectedBlocks defaultConfig "src/App.js"
          doc_unclosed [])
     = [Some 3].
Proof. repeat split; reflexivity. Qed.

(** ** Preservation of the blocks *)

(** The context-anchoring example: the block replaces the line between
    its two contexts. *)
Example context_anchoring :
  smartMergeFile defaultConfig (document S_anchor) (Some (document D_anchor))
  = Some {| merged := document D_anchor; warnings := [] |}.
Proof. reflexivity. Qed.

(** The three ways out of a step that does not throw: the span replaced,
    the block inserted, the block appended. *)
Ltac merge_step_cases :=
  unfold merge_step, Js.splice;
  destruct (getContextBefore _ _ _ _) as [?cb|]; [|discriminate];
  destruct (getContextAfter _ _ _ _) as [?ca|]; [|discriminate];
  destruct (findInsertPosition _ _ _) as [?p|];
  [destruct (findContextAfterPosition _ _ _) as [?e|]|];
  let H := fresh "H" in intros H; inversion H; subst; clear H.

(** Right after its own step, a block stands in the working document. *)
Lemma merge_step_occurs cfg demoLines result warns b result' warns' :
  merge_step cfg demoLines (result, warns) b = Some (result', warns') ->
  occursIn (Js.split (content b)) result'.
Proof.
  merge_step_cases.
  - eexists; eexists; reflexivity.
  - eexists; eexists; reflexivity.
  - exists (result ++ [EmptyString; WARNING_COMMENT]), [].
    now rewrite app_nil_r, <- app_assoc.
Qed.

Lemma merge_loop_app cfg demoLines bs1 bs2 st :
  merge_loop cfg demoLines (bs1 ++ bs2) st
  = match merge_loop cfg demoLines bs1 st with
    | Some st' => merge_loop cfg demoLines bs2 st'
    | None => None
    end.
Proof.
  revert st; induction bs1 as [|b bs1 IH]; intros st; simpl; [reflexivity|].
  destruct (merge_step cfg demoLines st b); [apply IH | reflexivity].
Qed.

(** The block reinserted last stands in the final working document. *)
Lemma merge_loop_last_occurs cfg demoLines bs b st result' warns' :
  merge_loop cfg demoLines (bs ++ [b]) st = Some (result', warns') ->
  occursIn (Js.split (content b)) result'.
Proof.
  rewrite merge_loop_app.
  destruct (merge_loop cfg demoLines bs st) as [[r w]|]; [|discriminate].
  cbn [merge_loop].
  destruct (merge_step cfg demoLines (r, w) b) as [[r' w']|] eqn:E;
    [|discriminate].
  intros H; inversion H; subst. eapply merge_step_occurs; exact E.
Qed.

(** The step fails only on a block that starts beyond the derivative. *)
Lemma merge_step_total cfg demoLines st b :
  start b <= length demoLines ->
  exists st', merge_step cfg demoLines st b = Some st'.
Proof.
  intros H. destruct st as [result warns]. unfold merge_step.
  rewrite getContextBefore_spec by exact H. rewrite getContextAfter_spec.
  destruct (findInsertPosition _ _ _) as [p|]; [|eexists; reflexivity].
  destruct (findContextAfterPosition _ _ _); eexists; reflexivity.
Qed.

Lemma merge_loop_total cfg demoLines bs :
  Forall (fun b => start b <= length demoLines) bs ->
  forall st, exists st', merge_loop cfg demoLines bs st = Some st'.
Proof.
  induction 1 as [|b bs Hb _ IH]; intros st; simpl; [now exists st|].
  destruct (merge_step_total cfg demoLines st b Hb) as [st' ->]. apply IH.
Qed.

(** [smartMergeFile] never throws. *)
Lemma smartMergeFile_total cfg mainContent demoFile :
  exists r, smartMergeFile cfg mainContent demoFile = Some r.
Proof.
  unfold smartMergeFile.
  set (demoContent := match demoFile with
                      | Some d => d
                      | None => mainContent
                      end).
  destruct (length (extractProtectedBlocks cfg demoContent) =? 0);
    [eexists; reflexivity|].
  unfold intelligentMerge.
  destruct (merge_loop_total cfg (Js.split demoContent)
              (extractProtectedBlocks cfg demoContent)) with
    (st := (Js.split mainContent, @nil MergeWarning)) as [[r w] ->].
  - destruct (extract_loop_spec cfg (Js.split demoContent)
                (Js.split demoContent) 0 extract_init eq_refl)
      as (Hwf & _ & _); [intros H; discriminate H|].
    eapply Forall_impl; [|exact Hwf].
    intros b Wb. pose proof (wf_order _ _ _ Wb). pose proof (wf_range _ _ _ Wb).
    lia.
  - eexists; reflexivity.
Qed.

Lemma occursIn_not_nil (blockLines doc : list string) :
  blockLines <> [] -> occursIn blockLines doc -> doc <> [].
Proof.
  intros Hne (pre & post & ->) H.
  apply app_eq_nil in H as [_ H]. apply app_eq_nil in H as [H _].
  contradiction.
Qed.

(** The working document of the merge always has a line. *)
Lemma merge_loop_not_nil cfg demoLines bs :
  forall result warns result' warns',
    result <> [] ->
    merge_loop cfg demoLines bs (result, warns) = Some (result', warns') ->
    result' <> [].
Proof.
  induction bs as [|b bs IH]; intros result warns result' warns' Hne;
    cbn [merge_loop].
  - intros H; inversion H; subst. exact Hne.
  - destruct (merge_step cfg demoLines (result, warns) b) as [[r w]|] eqn:E;
      [|discriminate].
    apply IH. eapply occursIn_not_nil; [apply split_not_nil|].
    eapply merge_step_occurs; exact E.
Qed.

Lemma Forall_firstn_keep {A} (P : A -> Prop) (n : nat) (l : list A) :
  Forall P l -> Forall P (firstn n l).
Proof.
  intros H. rewrite <- (firstn_skipn n l) in H.
  now apply Forall_app in H as [H _].
Qed.

Lemma Forall_skipn_keep {A} (P : A -> Prop) (n : nat) (l : list A) :
  Forall P l -> Forall P (skipn n l).
Proof.
  intros H. rewrite <- (firstn_skipn n l) in H.
  now apply Forall_app in H as [_ H].
Qed.

(** No line of the working document contains a line feed. *)
Lemma merge_step_noLF cfg demoLines result warns b result' warns' :
  Forall (fun l => Js.hasLF l = false) result ->
  merge_step cfg demoLines (result, warns) b = Some (result', warns') ->
  Forall (fun l => Js.hasLF l = false) result'.
Proof.
  intros Hr. merge_step_cases;
    repeat (apply Forall_app; split);
    auto using Forall_firstn_keep, Forall_skipn_keep, split_noLF;
    repeat constructor.
Qed.

Lemma merge_loop_noLF cfg demoLines bs :
  forall result warns result' warns',
    Forall (fun l => Js.hasLF l = false) result ->
    merge_loop cfg demoLines bs (result, warns) = Some (result', warns') ->
    Forall (fun l => Js.hasLF l = false) result'.
Proof.
  induction bs as [|b bs IH]; intros result warns result' warns' Hr;
    cbn [merge_loop].
  - intros H; inversion H; subst. exact Hr.
  - destruct (merge_step cfg demoLines (result, warns) b) as [[r w]|] eqn:E;
      [|discriminate].
    apply IH. eapply merge_step_noLF; [exact Hr | exact E].
Qed.

(** The lines of the text returned by [intelligentMerge] are the lines of
    its final working document. *)
Lemma intelligentMerge_lines cfg mainContent demoContent bs r :
  intelligentMerge cfg mainContent demoContent bs = Some r ->
  exists result,
    merge_loop cfg (Js.split demoContent) bs (Js.split mainContent, [])
    = Some (result, warnings r)
    /\ Js.split (merged r) = result.
Proof.
  unfold intelligentMerge.
  destruct (merge_loop _ _ _ _) as [[result warns]|] eqn:E; [|discriminate].
  intros H; inversion H; subst; simpl. exists result. split; [reflexivity|].
  apply split_join.
  - eapply merge_loop_not_nil; [apply split_not_nil | exact E].
  - eapply merge_loop_noLF; [apply split_noLF | exact E].
Qed.

(** The block reinserted last occurs verbatim in the merged text; so does
    the only block of a derivative with a single block. *)
Lemma intelligentMerge_last_block cfg mainContent demoContent bs b r :
  intelligentMerge cfg mainContent demoContent (bs ++ [b]) = Some r ->
  occursIn (Js.split (content b)) (Js.split (merged r)).
Proof.
  intros H. apply intelligentMerge_lines in H as (result & E & ->).
  eapply merge_loop_last_occurs; exact E.
Qed.

(** C1 on the code.  The merge of [S_overlap] and [D_overlap] reports no
    warning and leaves [merged_overlap] in the demo file: the second block
    has been anchored after the first ["<li>"] and its span, ended by the
    blank line that follows the first block, has replaced the first block,
    whose content is nowhere in the output. *)
Theorem C1_first_block_overwritten :
  extractProtectedBlocks defaultConfig (document D_overlap)
  = [block_one; block_two]
  /\ smartMergeFile defaultConfig (document S_overlap)
       (Some (document D_overlap))
     = Some {| merged := document merged_overlap; warnings := [] |}
  /\ Js.includes (document merged_overlap) (content block_one) = false
  /\ ~ In "one" merged_overlap.
Proof.
  split; [reflexivity|]. split; [reflexivity|]. split; [reflexivity|].
  unfold merged_overlap. simpl. intros H.
  repeat (destruct H as [H|H]; [discriminate H|]). exact H.
Qed.

(** * Further properties of the orchestrator and of the validator *)

(** ** The positional merge *)

(** The flag [skipping] runs the inner loop: after a start marker paired
    with a block, the scan resumes after the next end-marker line. *)
Lemma mergeBlocks_loop_skip cfg rest :
  forall blocks result,
    mergeBlocks_loop cfg rest true blocks result
    = mergeBlocks_loop cfg (skipToEnd cfg rest) false blocks result.
Proof.
  induction rest as [|line rest IH]; intros blocks result; simpl;
    [reflexivity|].
  destruct (someIncludes (end_markers cfg) line); [reflexivity | apply IH].
Qed.

Lemma mergeBlocks_loop_replace cfg line rest b blocks result :
  someIncludes (start_markers cfg) line = true ->
  mergeBlocks_loop cfg (line :: rest) false (b :: blocks) result
  = mergeBlocks_loop cfg (skipToEnd cfg rest) false blocks
      (result ++ Js.split (content b)).
Proof. intros H. simpl. rewrite H. apply mergeBlocks_loop_skip. Qed.

Lemma mergeBlocks_loop_no_block cfg rest :
  forall result, mergeBlocks_loop cfg rest false [] result = result ++ rest.
Proof.
  induction rest as [|line rest IH]; intros result; simpl;
    [now rewrite app_nil_r|].
  destruct (someIncludes (start_markers cfg) line);
    rewrite IH, <- app_assoc; reflexivity.
Qed.

Lemma mergeBlocks_loop_no_start cfg rest :
  countMarked (start_markers cfg) rest = 0 ->
  forall blocks result,
    mergeBlocks_loop cfg rest false blocks result = result ++ rest.
Proof.
  induction rest as [|line rest IH]; intros H blocks result; simpl;
    [now rewrite app_nil_r|].
  rewrite countMarked_cons in H.
  destruct (someIncludes (start_markers cfg) line); [discriminate|].
  rewrite IH by exact H. now rewrite <- app_assoc.
Qed.

(** The scan of the extractor and the scan of the positional merge, run on
    the same lines, undo each other. *)
Lemma extract_merge_loops cfg rest :
  Forall (fun l => Js.hasLF l = false) rest ->
  (forall i cur bs result,
      mergeBlocks_loop cfg rest false
        (extract_loop cfg rest i
           {| inBlock := false; currentBlock := cur; blockStart := bs |} [])
        result
      = result ++ rest)
  /\ (forall i cur bs result,
         cur <> [] -> Forall (fun l => Js.hasLF l = false) cur ->
         match extract_loop cfg rest i
                 {| inBlock := true; currentBlock := cur; blockStart := bs |}
                 [] with
         | [] => True
         | b :: more =>
             mergeBlocks_loop cfg rest true more
               (result ++ Js.split (content b))
             = result ++ cur ++ rest
         end).
Proof.
  induction rest as [|line rest IH]; intros Hlf.
  - split; intros; simpl; [now rewrite app_nil_r | exact I].
  - inversion Hlf as [|? ? Hline Hrest]; subst.
    destruct (IH Hrest) as [IHout IHin]. split.
    + intros i cur bs result. cbn [extract_loop inBlock negb andb].
      destruct (someIncludes (start_markers cfg) line) eqn:Hs.
      * specialize (IHin (S i) [line] i result ltac:(discriminate)
                      ltac:(repeat constructor; exact Hline)).
        cbn [mergeBlocks_loop]. rewrite Hs.
        destruct (extract_loop cfg rest (S i)
                    {| inBlock := true; currentBlock := [line];
                       blockStart := i |} []) as [|b more].
        -- rewrite mergeBlocks_loop_no_block. now rewrite <- app_assoc.
        -- exact IHin.
      * cbn [mergeBlocks_loop]. rewrite Hs. rewrite IHout.
        now rewrite <- app_assoc.
    + intros i cur bs result Hne Hcur.
      cbn [extract_loop inBlock negb andb currentBlock blockStart].
      assert (Hcur' : Forall (fun l => Js.hasLF l = false) (cur ++ [line]))
        by (apply Forall_app; split; [exact Hcur | repeat constructor;
                                                    exact Hline]).
      assert (Hne' : cur ++ [line] <> [])
        by (intros H; apply app_eq_nil in H as [_ H]; discriminate).
      destruct (someIncludes (end_markers cfg) line) eqn:He.
      * rewrite extract_loop_acc. cbn [app content mergeBlocks_loop].
        rewrite He, IHout, split_join by assumption.
        now rewrite <- !app_assoc.
      * specialize (IHin (S i) (cur ++ [line]) bs result Hne' Hcur').
        destruct (extract_loop cfg rest (S i)
                    {| inBlock := true; currentBlock := cur ++ [line];
                       blockStart := bs |} []) as [|b more]; [exact I|].
        cbn [mergeBlocks_loop]. rewrite He, IHin.
        now rewrite <- !app_assoc.
Qed.

(** X1. Putting the blocks extracted from a document back into that
    document with the positional merge gives the document back; so the
    earlier [smartMergeFile] leaves a file that is the same on both sides,
    or new on the demo side, as it is in the source. *)
Theorem X1_extract_merge_round_trip cfg D :
  mergeWithProtectedBlocks cfg D (extractProtectedBlocks cfg D) = D
  /\ Positional.smartMergeFile cfg D (Some D) = D
  /\ Positional.smartMergeFile cfg D None = D.
Proof.
  assert (H : mergeWithProtectedBlocks cfg D (extractProtectedBlocks cfg D)
              = D).
  { unfold mergeWithProtectedBlocks, extractProtectedBlocks, extract_init.
    destruct (extract_merge_loops cfg (Js.split D) (split_noLF D))
      as [Hout _].
    rewrite Hout. simpl. apply join_split. }
  split; [exact H|].
  unfold Positional.smartMergeFile.
  destruct (length (extractProtectedBlocks cfg D) =? 0); auto.
Qed.

(** X2. The positional merge changes nothing when it is given no block,
    and also when the source has no start-marker line: the blocks of the
    derivative are then all left out. *)
Theorem X2_positional_merge_no_anchor cfg mainContent protectedBlocks :
  protectedBlocks = []
  \/ countMarked (start_markers cfg) (Js.split mainContent) = 0 ->
  mergeWithProtectedBlocks cfg mainContent protectedBlocks = mainContent.
Proof.
  unfold mergeWithProtectedBlocks. intros [->|H].
  - rewrite mergeBlocks_loop_no_block. simpl. apply join_split.
  - rewrite mergeBlocks_loop_no_start by exact H. simpl. apply join_split.
Qed.

Lemma X2_positional_merge_no_anchor_witness :
  countMarked (start_markers defaultConfig) (Js.split (document S_anchor)) = 0
  /\ mergeWithProtectedBlocks defaultConfig (document S_anchor) [block_anchor]
     = document S_anchor.
Proof.
  split; [reflexivity|].
  apply (X2_positional_merge_no_anchor defaultConfig (document S_anchor)
           [block_anchor]).
  right. reflexivity.
Defined.

(** ** Blocks found by the extractor *)

Lemma split_hd_prefix (s h : string) (t : list string) :
  Js.split s = h :: t -> exists q, s = (h ++ q)%string.
Proof.
  revert h t; induction s as [|c s IH]; intros h t; simpl.
  - intros H; inversion H; subst. now exists EmptyString.
  - destruct (Ascii.eqb c Js.LF).
    + intros H; inversion H; subst. now exists (String c s).
    + destruct (Js.split s) as [|h' t'] eqn:E.
      * intros H; inversion H; subst. pose proof (split_not_nil s).
        congruence.
      * intros H; inversion H; subst.
        destruct (IH h' t eq_refl) as [q ->]. now exists q.
Qed.

(** A line of a text is a substring of the text. *)
Lemma split_In_substring (s l : string) :
  In l (Js.split s) -> exists p q, s = (p ++ l ++ q)%string.
Proof.
  revert l; induction s as [|c s IH]; intros l; simpl.
  - intros [<-|[]]. now exists EmptyString, EmptyString.
  - destruct (Ascii.eqb c Js.LF).
    + intros [<-|H].
      * now exists EmptyString, (String c s).
      * destruct (IH l H) as (p & q & ->). now exists (String c p), q.
    + destruct (Js.split s) as [|h t] eqn:E.
      * intros [<-|[]]. pose proof (split_not_nil s). congruence.
      * intros [<-|H].
        -- destruct (split_hd_prefix s h t E) as [q ->].
           now exists EmptyString, q.
        -- destruct (IH l (or_intror H)) as (p & q & ->).
           now exists (String c p), q.
Qed.

Lemma includes_line (s l m : string) :
  In l (Js.split s) -> Js.includes l m = true -> Js.includes s m = true.
Proof.
  intros Hl Hm. apply includes_iff in Hm as (p & q & ->).
  apply split_In_substring in Hl as (p' & q' & ->).
  apply includes_iff. exists (p' ++ p)%string, (q ++ q')%string.
  clear. induction p' as [|c p' IH]; simpl.
  - induction p as [|c p IH]; simpl; [|now rewrite IH].
    induction m as [|c m IH]; simpl; [reflexivity | now rewrite IH].
  - now rewrite IH.
Qed.

(** X3. [hasProtectedBlocks] never misses a file in which the extractor
    finds a block: when it answers no, the extractor finds nothing and
    [smartMergeFile] leaves the source text in the demo file, without a
    warning. *)
Theorem X3_hasProtectedBlocks_sound cfg S D :
  hasProtectedBlocks cfg D = false ->
  extractProtectedBlocks cfg D = []
  /\ smartMergeFile cfg S (Some D) = Some {| merged := S; warnings := [] |}.
Proof.
  intros Hno.
  assert (He : extractProtectedBlocks cfg D = []).
  { destruct (extractProtectedBlocks cfg D) as [|b bs] eqn:E; [reflexivity|].
    exfalso.
    destruct (extract_loop_spec cfg (Js.split D) (Js.split D) 0 extract_init
                eq_refl) as (Hwf & _ & _); [intros H; discriminate H|].
    fold (extractProtectedBlocks cfg D) in Hwf. rewrite E in Hwf.
    inversion Hwf as [|? ? Wb _]; subst.
    destruct (wf_start _ _ _ Wb) as (l & Hl & Hs).
    apply nth_error_In in Hl.
    unfold someIncludes in Hs. apply existsb_exists in Hs as (m & Hm & Hi).
    unfold hasProtectedBlocks in Hno.
    assert (Ht : existsb (fun marker => Js.includes D marker)
                   (start_markers cfg) = true).
    { apply existsb_exists. exists m. split; [exact Hm|].
      eapply includes_line; eassumption. }
    congruence. }
  split; [exact He|]. unfold smartMergeFile. now rewrite He.
Qed.

Lemma X3_hasProtectedBlocks_sound_witness :
  hasProtectedBlocks defaultConfig (document S_removed) = false
  /\ extractProtectedBlocks defaultConfig (document S_removed) = []
  /\ smartMergeFile defaultConfig (document S_anchor)
       (Some (document S_removed))
     = Some {| merged := document S_anchor; warnings := [] |}.
Proof.
  split; [reflexivity|].
  apply (X3_hasProtectedBlocks_sound defaultConfig (document S_anchor)
           (document S_removed)).
  reflexivity.
Defined.

(** A block is emitted from line [i] on as soon as the scan is inside a
    block that an end marker will close, or a start marker ahead has an end
    marker after it. *)
Lemma extract_loop_emits cfg lines rest :
  forall i st,
    skipn i lines = rest ->
    (inBlock st = true
     /\ exists e l, i <= e /\ nth_error lines e = Some l
                    /\ someIncludes (end_markers cfg) l = true)
    \/ (inBlock st = false
        /\ exists s e l l',
             i <= s /\ s < e
             /\ nth_error lines s = Some l
             /\ someIncludes (start_markers cfg) l = true
             /\ nth_error lines e = Some l'
             /\ someIncludes (end_markers cfg) l' = true) ->
    extract_loop cfg rest i st [] <> [].
Proof.
  induction rest as [|line rest IH]; intros i st Hskip H.
  - exfalso.
    assert (Hlen : length lines <= i).
    { pose proof (length_skipn i lines) as L. rewrite Hskip in L.
      simpl in L. lia. }
    destruct H as [(_ & e & l & He & Hl & _)
                  |(_ & s & e & l & l' & Hs & _ & Hl & _)].
    + assert (Hn : nth_error lines e <> None) by congruence.
      apply nth_error_Some in Hn. lia.
    + assert (Hn : nth_error lines s <> None) by congruence.
      apply nth_error_Some in Hn. lia.
  - destruct (skipn_cons_nth_error _ _ _ _ Hskip) as [Hline Hrest].
    destruct st as [ib cur bs]. simpl in H. simpl.
    destruct ib; simpl.
    + destruct (someIncludes (end_markers cfg) line) eqn:He.
      * rewrite extract_loop_acc. discriminate.
      * apply IH; [exact Hrest|]. left. split; [reflexivity|].
        destruct H as [(_ & e & l & Hle & Hl & Hm)|(Hf & _)];
          [|discriminate].
        exists e, l. repeat split; try assumption.
        destruct (Nat.eq_dec e i) as [->|Hne]; [congruence | lia].
    + destruct H as [(Hf & _)|(_ & s & e & l & l' & Hs & Hse & Hl & Hm
                                 & Hl' & Hm')]; [discriminate|].
      destruct (someIncludes (start_markers cfg) line) eqn:Hst; simpl.
      * apply IH; [exact Hrest|]. left. split; [reflexivity|].
        exists e, l'. repeat split; try assumption. lia.
      * apply IH; [exact Hrest|]. right. split; [reflexivity|].
        exists s, e, l, l'. repeat split; try assumption.
        destruct (Nat.eq_dec s i) as [->|Hne]; [congruence | lia].
Qed.

(** X4. The extractor finds no block exactly when no start-marker line of
    the document has an end-marker line after it. *)
Theorem X4_no_block_iff_no_closed_pair cfg content :
  extractProtectedBlocks cfg content = []
  <-> ~ hasClosedPair cfg (Js.split content).
Proof.
  split.
  - intros He (s & e & l & l' & Hse & Hl & Hm & Hl' & Hm').
    apply (extract_loop_emits cfg (Js.split content) (Js.split content) 0
             extract_init eq_refl); [|exact He].
    right. split; [reflexivity|].
    exists s, e, l, l'. repeat split; try assumption. lia.
  - intros Hno.
    destruct (extractProtectedBlocks cfg content) as [|b bs] eqn:E;
      [reflexivity|]. exfalso. apply Hno.
    destruct (extract_loop_spec cfg (Js.split content) (Js.split content) 0
                extract_init eq_refl) as (Hwf & _ & _);
      [intros H; discriminate H|].
    fold (extractProtectedBlocks cfg content) in Hwf. rewrite E in Hwf.
    inversion Hwf as [|? ? Wb _]; subst.
    destruct (wf_start _ _ _ Wb) as (l & Hl & Hs).
    destruct (wf_end _ _ _ Wb) as (l' & Hl' & He).
    exists (start b), (end_ b), l, l'.
    repeat split; try assumption. apply (wf_order _ _ _ Wb).
Qed.

Lemma extract_loop_count cfg rest :
  forall i st,
    length (extract_loop cfg rest i st []) <= countMarked (end_markers cfg) rest
    /\ length (extract_loop cfg rest i st [])
       <= countMarked (start_markers cfg) rest
          + (if inBlock st then 1 else 0).
Proof.
  induction rest as [|line rest IH]; intros i st; simpl; [split; lia|].
  rewrite !countMarked_cons.
  destruct st as [ib cur bs]; destruct ib; simpl.
  - destruct (someIncludes (end_markers cfg) line).
    + rewrite extract_loop_acc. simpl.
      destruct (IH (S i) {| inBlock := false; currentBlock := [];
                            blockStart := bs |}) as [H1 H2].
      simpl in H2.
      destruct (someIncludes (start_markers cfg) line); split; lia.
    + destruct (IH (S i) {| inBlock := true; currentBlock := cur ++ [line];
                            blockStart := bs |}) as [H1 H2].
      simpl in H2.
      destruct (someIncludes (start_markers cfg) line); split; lia.
  - destruct (someIncludes (start_markers cfg) line); simpl.
    + destruct (IH (S i) {| inBlock := true; currentBlock := [line];
                            blockStart := i |}) as [H1 H2].
      simpl in H2.
      destruct (someIncludes (end_markers cfg) line); split; lia.
    + destruct (IH (S i) {| inBlock := false; currentBlock := cur;
                            blockStart := bs |}) as [H1 H2].
      simpl in H2.
      destruct (someIncludes (end_markers cfg) line); split; lia.
Qed.

(** X5. The extractor finds at most as many blocks as the document has
    start-marker lines, and at most as many as it has end-marker lines. *)
Theorem X5_block_count_bound cfg content :
  length (extractProtectedBlocks cfg content)
  <= Nat.min (countMarked (start_markers cfg) (Js.split content))
             (countMarked (end_markers cfg) (Js.split content)).
Proof.
  destruct (extract_loop_count cfg (Js.split content) 0 extract_init)
    as [H1 H2].
  unfold extractProtectedBlocks. simpl in H2. lia.
Qed.

(** ** The merge as a whole *)

(** X6. A step of the merge throws exactly on a block that starts beyond
    the last line of the derivative; on the blocks that the extractor finds
    in the derivative this never happens, so [smartMergeFile] always
    returns. *)
Theorem X6_merge_never_throws cfg :
  (forall demoLines st b,
      merge_step cfg demoLines st b = None <-> length demoLines < start b)
  /\ (forall mainContent demoFile,
         exists r, smartMergeFile cfg mainContent demoFile = Some r).
Proof.
  split; [|apply smartMergeFile_total].
  intros demoLines st b. split.
  - intros H. destruct (le_lt_dec (start b) (length demoLines)) as [Hle|Hlt];
      [|exact Hlt].
    destruct (merge_step_total cfg demoLines st b Hle) as [st' E]. congruence.
  - intros H. destruct st as [result warns]. unfold merge_step.
    rewrite getContextBefore_out by (try exact H; lia). reflexivity.
Qed.

(** X7. The block that the extractor finds last in the derivative occurs
    verbatim, as a run of consecutive lines, in the text that
    [smartMergeFile] leaves in the demo file. *)
Theorem X7_last_block_preserved cfg S D bs b :
  extractProtectedBlocks cfg D = bs ++ [b] ->
  exists r,
    smartMergeFile cfg S (Some D) = Some r
    /\ occursIn (Js.split (content b)) (Js.split (merged r)).
Proof.
  intros E.
  destruct (smartMergeFile_total cfg S (Some D)) as [r Hr].
  exists r. split; [exact Hr|].
  unfold smartMergeFile in Hr. rewrite E in Hr.
  rewrite length_app in Hr. simpl in Hr.
  replace (length bs + 1 =? 0) with false in Hr
    by (symmetry; apply Nat.eqb_neq; lia).
  eapply intelligentMerge_last_block; exact Hr.
Qed.

Lemma X7_last_block_preserved_witness :
  extractProtectedBlocks defaultConfig (document D_overlap)
  = [block_one] ++ [block_two]
  /\ exists r,
       smartMergeFile defaultConfig (document S_overlap)
         (Some (document D_overlap)) = Some r
       /\ occursIn (Js.split (content block_two)) (Js.split (merged r)).
Proof.
  split; [reflexivity|].
  apply (X7_last_block_preserved defaultConfig (document S_overlap)
           (document D_overlap) [block_one] block_two).
  reflexivity.
Defined.

(** Each step adds at most the warning of its block. *)
Lemma merge_step_warnings cfg demoLines result warns b result' warns' :
  merge_step cfg demoLines (result, warns) b = Some (result', warns') ->
  warns' = warns \/ warns' = warns ++ [contextMissingWarning b].
Proof. merge_step_cases; auto. Qed.

Lemma merge_loop_warnings cfg demoLines bs :
  forall result warns result' warns',
    merge_loop cfg demoLines bs (result, warns) = Some (result', warns') ->
    exists new,
      warns' = warns ++ new
      /\ length new <= length bs
      /\ Forall (fun w => exists b, In b bs /\ w = contextMissingWarning b)
           new.
Proof.
  induction bs as [|b bs IH]; intros result warns result' warns';
    cbn [merge_loop].
  - intros H; inversion H; subst. exists []. rewrite app_nil_r.
    repeat split; [simpl; lia | constructor].
  - destruct (merge_step cfg demoLines (result, warns) b) as [[r w]|] eqn:E;
      [|discriminate].
    intros H. destruct (IH _ _ _ _ H) as (new & -> & Hlen & Hall).
    assert (Hall' : Forall (fun w => exists b0, In b0 (b :: bs)
                                      /\ w = contextMissingWarning b0) new).
    { eapply Forall_impl; [|exact Hall]. intros w0 (b0 & Hb0 & ->).
      exists b0. split; [right; exact Hb0 | reflexivity]. }
    destruct (merge_step_warnings _ _ _ _ _ _ _ E) as [->| ->].
    + exists new. repeat split; [simpl; lia | exact Hall'].
    + exists (contextMissingWarning b :: new).
      split; [now rewrite <- app_assoc|].
      split; [simpl; lia|].
      constructor; [|exact Hall'].
      exists b. split; [left; reflexivity | reflexivity].
Qed.

(** X8. [intelligentMerge] reports at most one warning for each block it
    is given, and every warning it reports is the context-missing warning
    of one of these blocks; its preview is the first 100 code units of the
    content of the block followed by three full stops, at most 103 code
    units. *)
Theorem X8_warnings_name_blocks cfg mainContent demoContent blocks r :
  intelligentMerge cfg mainContent demoContent blocks = Some r ->
  length (warnings r) <= length blocks
  /\ Forall (fun w =>
               exists b,
                 In b blocks
                 /\ w = contextMissingWarning b
                 /\ block w = firstn 100 (Js.units (content b))
                              ++ [46%N; 46%N; 46%N]
                 /\ length (block w) <= 103)
       (warnings r).
Proof.
  intros H. apply intelligentMerge_lines in H as (result & E & _).
  destruct (merge_loop_warnings _ _ _ _ _ _ _ E) as (new & Hw & Hlen & Hall).
  simpl in Hw. rewrite Hw. split; [exact Hlen|].
  eapply Forall_impl; [|exact Hall].
  intros w (b & Hb & ->). exists b.
  split; [exact Hb|]. split; [reflexivity|].
  apply contextMissingWarning_block.
Qed.

Lemma X8_warnings_name_blocks_witness :
  intelligentMerge defaultConfig (document S_removed) (document D_long)
    [block_long]
  = Some {| merged :=
              document (S_removed ++ [EmptyString; WARNING_COMMENT]
                                  ++ Js.split (content block_long));
            warnings := [contextMissingWarning block_long] |}
  /\ length [contextMissingWarning block_long] <= length [block_long]
  /\ Forall (fun w =>
               exists b,
                 In b [block_long]
                 /\ w = contextMissingWarning b
                 /\ block w = firstn 100 (Js.units (content b))
                              ++ [46%N; 46%N; 46%N]
                 /\ length (block w) <= 103)
       [contextMissingWarning block_long].
Proof.
  split; [reflexivity|].
  apply (X8_warnings_name_blocks defaultConfig (document S_removed)
           (document D_long) [block_long]
           {| merged :=
                document (S_removed ++ [EmptyString; WARNING_COMMENT]
                                    ++ Js.split (content block_long));
              warnings := [contextMissingWarning block_long] |}).
  reflexivity.
Defined.

Lemma merge_step_origin cfg demoLines mainLines blocks result warns b
  result' warns' :
  In b blocks ->
  Forall (lineOrigin mainLines blocks) result ->
  merge_step cfg demoLines (result, warns) b = Some (result', warns') ->
  Forall (lineOrigin mainLines blocks) result'.
Proof.
  intros Hb Hr.
  assert (Hblock : Forall (lineOrigin mainLines blocks)
                     (Js.split (content b))).
  { apply Forall_forall. intros l Hl. right. left. now exists b. }
  merge_step_cases;
    repeat (apply Forall_app; split);
    auto using Forall_firstn_keep, Forall_skipn_keep.
  constructor; [right; right; left; reflexivity|].
  constructor; [right; right; right; reflexivity | exact Hblock].
Qed.

Lemma merge_loop_origin cfg demoLines mainLines blocks bs :
  forall result warns result' warns',
    incl bs blocks ->
    Forall (lineOrigin mainLines blocks) result ->
    merge_loop cfg demoLines bs (result, warns) = Some (result', warns') ->
    Forall (lineOrigin mainLines blocks) result'.
Proof.
  induction bs as [|b bs IH]; intros result warns result' warns' Hin Hr;
    cbn [merge_loop].
  - intros H; inversion H; subst. exact Hr.
  - destruct (merge_step cfg demoLines (result, warns) b) as [[r w]|] eqn:E;
      [|discriminate].
    apply IH; [intros x Hx; apply Hin; now right|].
    eapply merge_step_origin; [apply Hin; now left | exact Hr | exact E].
Qed.

(** X9. Every line of the text returned by [intelligentMerge] is a line of
    the source, a line of one of the blocks, the empty line or the warning
    comment: no other line of the derivative reaches the merged text. *)
Theorem X9_merged_lines_origin cfg mainContent demoContent blocks r :
  intelligentMerge cfg mainContent demoContent blocks = Some r ->
  Forall (lineOrigin (Js.split mainContent) blocks) (Js.split (merged r)).
Proof.
  intros H. apply intelligentMerge_lines in H as (result & E & ->).
  eapply merge_loop_origin; [apply incl_refl | | exact E].
  apply Forall_forall. intros l Hl. now left.
Qed.

Lemma X9_merged_lines_origin_witness :
  intelligentMerge defaultConfig (document S_anchor) (document D_anchor)
    [block_anchor]
  = Some {| merged := document D_anchor; warnings := [] |}
  /\ Forall (lineOrigin (Js.split (document S_anchor)) [block_anchor])
       (Js.split (document D_anchor)).
Proof.
  split; [reflexivity|].
  apply (X9_merged_lines_origin defaultConfig (document S_anchor)
           (document D_anchor) [block_anchor]
           {| merged := document D_anchor; warnings := [] |}).
  reflexivity.
Defined.

(** ** The locator on an unchanged context *)

Lemma matches_loop_nil rest skipEmpty : matches_loop rest [] skipEmpty = true.
Proof. destruct rest; reflexivity. Qed.


Lemma find_seq_le (f : nat -> bool) (n i k : nat) :
  i <= k < i + n -> f k = true ->
  exists j, find f (seq i n) = Some j /\ j <= k.
Proof.
  intros Hk Hf. destruct (find f (seq i n)) as [j|] eqn:E.
  - exists j. split; [reflexivity|].
    apply find_seq_Some in E as (_ & _ & Hlt).
    destruct (le_lt_dec j k) as [H|H]; [exact H|].
    rewrite Hlt in Hf by lia. discriminate.
  - rewrite (find_seq_None _ _ _ E k Hk) in Hf. discriminate.
Qed.




(** Blank lines of the target are invisible to the matching of a
    before-context. *)
Lemma matches_loop_nonBlank rest :
  forall context,
    matches_loop rest context true
    = matches_loop (filter nonBlank rest) context true.
Proof.
  induction rest as [|l rest IH]; intros context; [reflexivity|].
  destruct context as [|c context];
    [now rewrite !matches_loop_nil|].
  cbn [filter]. unfold nonBlank at 1.
  destruct (Js.isEmpty (Js.trim l)) eqn:He; cbn [negb matches_loop].
  - rewrite He. simpl. apply IH.
  - rewrite He. simpl.
    destruct (String.eqb (Js.trim l) c); [apply IH|].
    destruct (Js.includes (Js.trim l) c || Js.includes c (Js.trim l));
      [apply IH | reflexivity].
Qed.

(** X11. Whether a before-context matches at the beginning of a document
    depends only on the lines of the document that are not blank: two
    documents that differ by blank lines only give the same answer. *)
Theorem X11_before_match_ignores_blank_lines lines1 lines2 context :
  filter nonBlank lines1 = filter nonBlank lines2 ->
  matchesContext lines1 0 context true = matchesContext lines2 0 context true.
Proof.
  intros H. unfold matchesContext. simpl.
  rewrite (matches_loop_nonBlank lines1), (matches_loop_nonBlank lines2).
  now rewrite H.
Qed.

Lemma X11_before_match_ignores_blank_lines_witness :
  filter nonBlank ["a"; ""; "   "; "b"; "c"] = filter nonBlank ["a"; "b"; ""; "c"]
  /\ matchesContext ["a"; ""; "   "; "b"; "c"] 0 ["a"; "b"] true
     = matchesContext ["a"; "b"; ""; "c"] 0 ["a"; "b"] true.
Proof.
  split; [reflexivity|].
  apply (X11_before_match_ignores_blank_lines ["a"; ""; "   "; "b"; "c"]
           ["a"; "b"; ""; "c"] ["a"; "b"]).
  reflexivity.
Defined.

(** ** The bracket check of the validator *)

Lemma brackets_key_value k c :
  In (k, c) JsSyntax.brackets ->
  JsSyntax.isKey k = true /\ JsSyntax.isKey c = false
  /\ JsSyntax.isValue c = true /\ JsSyntax.closes k c = true.
Proof.
  intros [H|[H|[H|[]]]]; inversion H; subst; repeat split; reflexivity.
Qed.

Lemma closes_brackets k c :
  JsSyntax.closes k c = true -> In (k, c) JsSyntax.brackets.
Proof.
  unfold JsSyntax.closes.
  destruct (find _ _) as [[k' c']|] eqn:E; [|discriminate].
  apply find_some in E as [Hin Hk]. simpl in *.
  apply Ascii.eqb_eq in Hk. intros Hc. apply Ascii.eqb_eq in Hc.
  now subst.
Qed.

Lemma string_app_assoc (a b c : string) :
  ((a ++ b) ++ c = a ++ b ++ c)%string.
Proof. induction a as [|x a IH]; simpl; [reflexivity | now rewrite IH]. Qed.

Lemma string_app_nil_r (a : string) : (a ++ "" = a)%string.
Proof. induction a as [|x a IH]; simpl; [reflexivity | now rewrite IH]. Qed.

(** A balanced text leaves the stack as it found it. *)
Lemma run_balanced s :
  JsSyntax.Balanced s ->
  forall r stack, JsSyntax.run (s ++ r) stack = JsSyntax.run r stack.
Proof.
  induction 1 as [|c s Hk Hv _ IH|k c s t Hin _ IHs _ IHt]; intros r stack.
  - reflexivity.
  - simpl. rewrite Hk, Hv. apply IH.
  - destruct (brackets_key_value k c Hin) as (Hk & Hck & Hcv & Hcl).
    simpl. rewrite Hk, string_app_assoc, IHs. simpl.
    rewrite Hck, Hcv, Hcl. apply IHt.
Qed.

Lemma closesStack_run stack s :
  JsSyntax.ClosesStack stack s -> JsSyntax.run s stack = Some [].
Proof.
  induction 1 as [s Hs|k c stack s s' Hin Hs _ IH].
  - rewrite <- (string_app_nil_r s). now rewrite run_balanced.
  - destruct (brackets_key_value k c Hin) as (_ & Hck & Hcv & Hcl).
    rewrite run_balanced by exact Hs. simpl. now rewrite Hck, Hcv, Hcl.
Qed.

Lemma closesStack_other c stack s :
  JsSyntax.isKey c = false -> JsSyntax.isValue c = false ->
  JsSyntax.ClosesStack stack s -> JsSyntax.ClosesStack stack (String c s).
Proof.
  intros Hk Hv H. inversion H as [s0 Hs|k c' stack' s0 s' Hin Hs Hc]; subst.
  - constructor. now constructor.
  - change (String c (s0 ++ String c' s'))
      with (String c s0 ++ String c' s')%string.
    constructor; [exact Hin | now constructor | exact Hc].
Qed.

Lemma closesStack_wrap k c stack s t :
  In (k, c) JsSyntax.brackets ->
  JsSyntax.Balanced s -> JsSyntax.ClosesStack stack t ->
  JsSyntax.ClosesStack stack (String k (s ++ String c t)).
Proof.
  intros Hin Hs H. inversion H as [t0 Ht|k' c' stack' t0 t' Hin' Ht Hc]; subst.
  - constructor. now constructor.
  - replace (String k (s ++ String c (t0 ++ String c' t')))
      with (String k (s ++ String c t0) ++ String c' t')%string
      by (simpl; now rewrite string_app_assoc).
    constructor; [exact Hin' | now constructor | exact Hc].
Qed.

Lemma run_closesStack s :
  forall stack, JsSyntax.run s stack = Some [] -> JsSyntax.ClosesStack stack s.
Proof.
  induction s as [|c s IH]; intros stack; simpl.
  - intros H; inversion H; subst. constructor. constructor.
  - destruct (JsSyntax.isKey c) eqn:Hk.
    + intros H. apply IH in H.
      inversion H as [|k c' stack' s0 s' Hin Hs Hc]; subst.
      now apply closesStack_wrap.
    + destruct (JsSyntax.isValue c) eqn:Hv.
      * destruct stack as [|k stack]; [discriminate|].
        destruct (JsSyntax.closes k c) eqn:Hcl; [|discriminate].
        intros H. apply IH in H.
        change (String c s) with ("" ++ String c s)%string.
        constructor; [now apply closes_brackets | constructor | exact H].
      * intros H. apply closesStack_other; auto.
Qed.

(** The stack machine accepts exactly the balanced texts. *)
Lemma run_iff_balanced s :
  JsSyntax.run s [] = Some [] <-> JsSyntax.Balanced s.
Proof.
  split.
  - intros H. apply run_closesStack in H. now inversion H.
  - intros H. apply closesStack_run. now constructor.
Qed.

(** The loop over the characters follows [run]; it pushes one warning of
    type [syntax] when it breaks and none otherwise. *)
Lemma bracket_loop_run fp rest :
  forall i stack warnings,
    match JsSyntax.run rest (map JsSyntax.char stack) with
    | Some chars =>
        exists stack',
          JsSyntax.bracket_loop fp rest i stack warnings = (stack', warnings)
          /\ map JsSyntax.char stack' = chars
    | None =>
        exists stack' w,
          JsSyntax.bracket_loop fp rest i stack warnings
          = (stack', warnings ++ [w])
          /\ SyncValidator.type w = "syntax"
          /\ SyncValidator.line w = None
    end.
Proof.
  induction rest as [|c rest IH]; intros i stack warnings; simpl.
  - now exists stack.
  - destruct (JsSyntax.isKey c).
    + apply (IH (S i) ({| JsSyntax.char := c; JsSyntax.pos := i |} :: stack)).
    + destruct (JsSyntax.isValue c); [|apply IH].
      destruct stack as [|last stack]; simpl.
      * eexists; eexists; repeat split; reflexivity.
      * destruct (JsSyntax.closes (JsSyntax.char last) c); simpl;
          [apply IH|].
        eexists; eexists; repeat split; reflexivity.
Qed.

(** The loop over the lines pushes warnings of the two other types, each
    with the number, counted from 1, of a line without ["//"] on which its
    test succeeds. *)
Lemma lines_loop_spec fp lines rest :
  forall i warnings,
    skipn i lines = rest ->
    exists new,
      JsSyntax.lines_loop fp rest i warnings = warnings ++ new
      /\ Forall (lineWarning lines) new
      /\ forall k l,
           i <= k ->
           nth_error lines k = Some l ->
           Js.includes l "//" = false ->
           (JsSyntax.matchesVar l = true -> In (JsSyntax.useLetConst fp k) new)
           /\ (JsSyntax.matchesConsole l = true ->
               In (JsSyntax.consoleStatement fp k) new).
Proof.
  induction rest as [|line rest IH]; intros i warnings Hskip; simpl.
  - exists []. split; [now rewrite app_nil_r|]. split; [constructor|].
    intros k l Hk Hl _. exfalso.
    assert (Hlen : length lines <= i).
    { pose proof (length_skipn i lines) as L. rewrite Hskip in L.
      simpl in L. lia. }
    assert (k < length lines) by (apply nth_error_Some; congruence). lia.
  - destruct (skipn_cons_nth_error _ _ _ _ Hskip) as [Hline Hrest].
    assert (Hlater : forall new,
      (forall k l, S i <= k -> nth_error lines k = Some l ->
         Js.includes l "//" = false ->
         (JsSyntax.matchesVar l = true -> In (JsSyntax.useLetConst fp k) new)
         /\ (JsSyntax.matchesConsole l = true ->
             In (JsSyntax.consoleStatement fp k) new)) ->
      forall pre,
        ((JsSyntax.matchesVar line = true -> Js.includes line "//" = false ->
          In (JsSyntax.useLetConst fp i) pre)
         /\ (JsSyntax.matchesConsole line = true ->
             Js.includes line "//" = false ->
             In (JsSyntax.consoleStatement fp i) pre)) ->
        forall k l, i <= k -> nth_error lines k = Some l ->
          Js.includes l "//" = false ->
          (JsSyntax.matchesVar l = true ->
           In (JsSyntax.useLetConst fp k) (pre ++ new))
          /\ (JsSyntax.matchesConsole l = true ->
              In (JsSyntax.consoleStatement fp k) (pre ++ new))).
    { intros new Hnew pre [Hv Hc] k l Hk Hl Hcom.
      destruct (Nat.eq_dec k i) as [->|Hne].
      - assert (l = line) by congruence. subst l.
        split; intros H; apply in_or_app; left; auto.
      - destruct (Hnew k l ltac:(lia) Hl Hcom) as [H1 H2].
        split; intros H; apply in_or_app; right; auto. }
    destruct (Js.includes line "//") eqn:Hc; simpl.
    + rewrite !andb_false_r.
      destruct (IH (S i) warnings Hrest) as (new & E & Hnew & Hall).
      exists new. split; [exact E|]. split; [exact Hnew|].
      apply (Hlater new Hall []). split; intros _ H; discriminate H.
    + rewrite !andb_true_r.
      destruct (JsSyntax.matchesVar line) eqn:Hv;
        destruct (JsSyntax.matchesConsole line) eqn:Hl;
        match goal with
        | |- context [JsSyntax.lines_loop fp rest (S i) ?ws] =>
            destruct (IH (S i) ws Hrest) as (new & -> & Hnew & Hall)
        end.
      * exists ([JsSyntax.useLetConst fp i; JsSyntax.consoleStatement fp i]
                ++ new).
        split; [now rewrite <- !app_assoc|]. split.
        -- constructor; [|constructor; [|exact Hnew]];
             exists i, line; repeat split; auto.
        -- apply (Hlater new Hall). split; intros _ _; simpl; auto.
      * exists ([JsSyntax.useLetConst fp i] ++ new).
        split; [now rewrite <- !app_assoc|]. split.
        -- constructor; [|exact Hnew].
           exists i, line; repeat split; auto.
        -- apply (Hlater new Hall).
           split; intros H _; [simpl; auto | discriminate H].
      * exists ([JsSyntax.consoleStatement fp i] ++ new).
        split; [now rewrite <- !app_assoc|]. split.
        -- constructor; [|exact Hnew].
           exists i, line; repeat split; auto.
        -- apply (Hlater new Hall).
           split; intros H _; [discriminate H | simpl; auto].
      * exists new. split; [reflexivity|]. split; [exact Hnew|].
        apply (Hlater new Hall []). split; intros H _; discriminate H.
Qed.

(** The warnings of [checkJavaScriptSyntax]: those of the bracket check,
    then those of the lines. *)
Lemma checkJavaScriptSyntax_parts filePath content warnings :
  exists syn lin,
    JsSyntax.checkJavaScriptSyntax filePath content warnings
    = warnings ++ syn ++ lin
    /\ Forall bracketWarning syn
    /\ length syn <= 2
    /\ (syn = [] <-> JsSyntax.Balanced content)
    /\ Forall (lineWarning (Js.split content)) lin
    /\ linesWarned filePath (Js.split content) lin.
Proof.
  unfold JsSyntax.checkJavaScriptSyntax.
  pose proof (bracket_loop_run filePath content 0 [] warnings) as Hrun.
  setoid_rewrite <- run_iff_balanced. simpl in Hrun.
  assert (Hlines : forall ws, exists lin,
             JsSyntax.lines_loop filePath (Js.split content) 0 ws = ws ++ lin
             /\ Forall (lineWarning (Js.split content)) lin
             /\ linesWarned filePath (Js.split content) lin).
  { intros ws.
    destruct (lines_loop_spec filePath (Js.split content) (Js.split content)
                0 ws eq_refl) as (lin & E & Hlin & Hall).
    exists lin. split; [exact E|]. split; [exact Hlin|].
    intros k l Hl Hc. apply Hall; [lia | exact Hl | exact Hc]. }
  assert (Hu : forall n, bracketWarning (JsSyntax.unclosedBrackets filePath n))
    by (intros n; split; reflexivity).
  destruct (JsSyntax.run content []) as [chars|].
  - destruct Hrun as (stack' & -> & Hchars).
    destruct stack' as [|e stack']; simpl in *; subst chars.
    + destruct (Hlines warnings) as (lin & -> & Hlin).
      exists [], lin.
      split; [reflexivity|]. split; [constructor|]. split; [simpl; lia|].
      split; [split; reflexivity | exact Hlin].
    + destruct (Hlines (warnings
                        ++ [JsSyntax.unclosedBrackets filePath
                              (S (length stack'))]))
        as (lin & -> & Hlin).
      exists [JsSyntax.unclosedBrackets filePath (S (length stack'))], lin.
      split; [now rewrite <- app_assoc|].
      split; [repeat constructor|]. split; [simpl; lia|].
      split; [split; discriminate | exact Hlin].
  - destruct Hrun as (stack' & w & -> & Hw).
    match goal with
    | |- context [JsSyntax.lines_loop _ _ 0 ?ws] =>
        destruct (Hlines ws) as (lin & -> & Hlin)
    end.
    destruct (0 <? length stack').
    + exists [w; JsSyntax.unclosedBrackets filePath (length stack')], lin.
      split; [now rewrite <- !app_assoc|].
      split; [repeat constructor; try apply Hw; reflexivity|].
      split; [simpl; lia|]. split; [split; discriminate | exact Hlin].
    + exists [w], lin.
      split; [now rewrite <- !app_assoc|].
      split; [repeat constructor; apply Hw|].
      split; [simpl; lia|]. split; [split; discriminate | exact Hlin].
Qed.

(** X12. [checkJavaScriptSyntax] pushes no warning of type [syntax]
    exactly when the round, square and curly brackets of the text are
    balanced, whatever else the text contains. *)
Theorem X12_bracket_check_iff_balanced filePath content warnings :
  exists new,
    JsSyntax.checkJavaScriptSyntax filePath content warnings = warnings ++ new
    /\ (Forall (fun w => SyncValidator.type w <> "syntax") new
        <-> JsSyntax.Balanced content).
Proof.
  destruct (checkJavaScriptSyntax_parts filePath content warnings)
    as (syn & lin & -> & Hsyn & _ & Hbal & Hlin & _).
  exists (syn ++ lin). split; [reflexivity|].
  rewrite <- Hbal. split.
  - intros H. apply Forall_app in H as [H _].
    destruct syn as [|w syn]; [reflexivity|].
    inversion H as [|? ? Hw _]; inversion Hsyn as [|? ? [Ht _] _]; subst.
    contradiction.
  - intros ->. simpl. eapply Forall_impl; [|exact Hlin].
    intros w (k & l & _ & _ & _ & [[-> _]|[-> _]]); discriminate.
Qed.

(** X13. [checkJavaScriptSyntax] pushes at most two warnings of the
    bracket check, without a line number, and after them the warnings of
    the lines: each of these carries the number, counted from 1, of a line
    that does not contain ["//"] and that starts with [var] or mentions a
    console call, according to its type; and every such line has its
    warning. *)
Theorem X13_syntax_warnings_shape filePath content warnings :
  exists syn lin,
    JsSyntax.checkJavaScriptSyntax filePath content warnings
    = warnings ++ syn ++ lin
    /\ length syn <= 2
    /\ Forall bracketWarning syn
    /\ Forall (lineWarning (Js.split content)) lin
    /\ linesWarned filePath (Js.split content) lin.
Proof.
  destruct (checkJavaScriptSyntax_parts filePath content warnings)
    as (syn & lin & H & Hsyn & Hlen & _ & Hlin & Hall).
  exists syn, lin.
  split; [exact H|]. split; [exact Hlen|]. split; [exact Hsyn|].
  split; [exact Hlin | exact Hall].
Qed.

(** The test for [var] takes white space outside ASCII as white space,
    before [var] and after it; [var] alone or followed by a letter is not
    matched. *)
Example matchesVar_unicode :
  JsSyntax.matchesVar (NBSP ++ "var x = 1")%string = true
  /\ JsSyntax.matchesVar ("var" ++ NBSP ++ "y = 2")%string = true
  /\ JsSyntax.matchesVar (EM_SPACE ++ " var" ++ EM_SPACE ++ "z")%string = true
  /\ JsSyntax.matchesVar "variable = 3" = false
  /\ JsSyntax.matchesVar "var" = false
  /\ JsSyntax.matchesVar "x var y" = false.
Proof. repeat split. Qed.

Example checkJavaScriptSyntax_var_unicode :
  JsSyntax.checkJavaScriptSyntax "src/App.js" doc_var_unicode []
  = [JsSyntax.useLetConst "src/App.js" 0; JsSyntax.useLetConst "src/App.js" 1]
  /\ map SyncValidator.line
       (JsSyntax.checkJavaScriptSyntax "src/App.js" doc_var_unicode [])
     = [Some 1; Some 2].
Proof. split; reflexivity. Qed.

(** Brackets are counted in comments and strings too. *)
Example checkJavaScriptSyntax_bracket_in_comment :
  map SyncValidator.message
    (JsSyntax.checkJavaScriptSyntax "src/App.js"
       (document ["function f(a) {"; "  // var x = [1;"; "  return a[0];";
                  "}"]) [])
  = ["Mismatched brackets: '[' and '}'"; "1 unclosed bracket(s)"].
Proof. reflexivity. Qed.

Example checkJavaScriptSyntax_two_bracket_warnings :
  map SyncValidator.message
    (JsSyntax.checkJavaScriptSyntax "src/App.js"
       (document ["var x = ((];"; "console.log(x)"]) [])
  = ["Mismatched brackets: '(' and ']'"; "1 unclosed bracket(s)";
     "Use let/const instead of var";
     "Console statement detected (might be debug code)"].
Proof. reflexivity. Qed.

(** ** Validated documents and the extractor *)

Lemma countMarked_pos markers lines :
  0 < countMarked markers lines ->
  exists e l, nth_error lines e = Some l /\ someIncludes markers l = true.
Proof.
  induction lines as [|x lines IH]; [intros H; inversion H|].
  rewrite countMarked_cons.
  destruct (someIncludes markers x) eqn:Hx.
  - intros _. now exists 0, x.
  - intros H. destruct (IH H) as (e & l & Hl & Hm). now exists (S e), l.
Qed.

(** X14. In a document for which [SyncValidator.validateProtectedBlocks]
    pushes no error, every start-marker line that is not also an
    end-marker line lies within a block found by the extractor. *)
Theorem X14_validated_start_markers_are_covered cfg filePath content errors
  k l :
  SyncValidator.validateProtectedBlocks cfg filePath content errors = errors ->
  nth_error (Js.split content) k = Some l ->
  someIncludes (start_markers cfg) l = true ->
  someIncludes (end_markers cfg) l = false ->
  exists b,
    In b (extractProtectedBlocks cfg content) /\ start b <= k <= end_ b.
Proof.
  intros Hval Hl Hs He.
  destruct (SyncValidator_malformed cfg filePath content errors)
    as (new & Hnew & Hmal).
  assert (Hok : ~ unclosedStart cfg (Js.split content)).
  { intros Hu. assert (Hn : new <> []) by (apply Hmal; left; exact Hu).
    apply Hn. rewrite Hval in Hnew.
    rewrite <- (app_nil_r errors) in Hnew at 1.
    apply app_inv_head in Hnew. now symmetry. }
  assert (Hcount : countMarked (start_markers cfg) (skipn k (Js.split content))
                   <= countMarked (end_markers cfg)
                        (skipn k (Js.split content))).
  { destruct (le_lt_dec (countMarked (start_markers cfg)
                           (skipn k (Js.split content)))
                (countMarked (end_markers cfg) (skipn k (Js.split content))))
      as [H|H]; [exact H|]. exfalso. apply Hok. now exists k. }
  rewrite (nth_error_skipn_cons _ _ _ Hl) in Hcount.
  rewrite !countMarked_cons, Hs, He in Hcount.
  destruct (countMarked_pos (end_markers cfg)
              (skipn (S k) (Js.split content))) as (e & le & Hle & Hme);
    [lia|].
  rewrite nth_error_skipn in Hle.
  apply (extract_loop_covers cfg (Js.split content) k (S k + e) l le Hl Hs
           ltac:(lia) Hle Hme (Js.split content) 0 extract_init eq_refl).
  - intros H; discriminate H.
  - left. lia.
Qed.

Lemma X14_validated_start_markers_are_covered_witness :
  (SyncValidator.validateProtectedBlocks defaultConfig "src/App.js"
     (document D_overlap) [] = []
   /\ nth_error (Js.split (document D_overlap)) 7
      = Some "{/* DEMO-INTENTIONAL-START */}")
  /\ exists b,
       In b (extractProtectedBlocks defaultConfig (document D_overlap))
       /\ start b <= 7 <= end_ b.
Proof.
  split; [split; reflexivity|].
  apply (X14_validated_start_markers_are_covered defaultConfig "src/App.js"
           (document D_overlap) [] 7 "{/* DEMO-INTENTIONAL-START */}");
    reflexivity.
Defined.

(** ** Blank lines and the after-context *)

(** A blank line matches any one-line after-context. *)
Lemma blank_matches_after lines j l c :
  nth_error lines j = Some l -> Js.trim l = EmptyString ->
  matchesContext lines j [c] false = true.
Proof.
  intros Hl Ht. unfold matchesContext.
  rewrite (nth_error_skipn_cons _ _ _ Hl). cbn [matches_loop].
  rewrite Ht. cbn [Js.isEmpty andb].
  destruct (String.eqb "" c); [apply matches_loop_nil|].
  rewrite (includes_empty c), orb_true_r. apply matches_loop_nil.
Qed.

(** X15. With an after-context of one line, a blank line of the working
    document within the 20 lines searched always ends the span: the span
    end is found, at that line or before it. *)
Theorem X15_blank_line_ends_span lines c p j l :
  p <= j < Nat.min (length lines) (p + 20) ->
  nth_error lines j = Some l ->
  Js.trim l = EmptyString ->
  exists e, findContextAfterPosition lines [c] p = Some e /\ p <= e <= j.
Proof.
  intros Hj Hl Ht. unfold findContextAfterPosition.
  rewrite findAfter_loop_find. unfold firstMatch.
  destruct (find_seq_le (fun i => matchesContext lines i [c] false)
              (Nat.min (length lines) (p + 20) - p) p j) as (e & He & Hle).
  - lia.
  - eapply blank_matches_after; eassumption.
  - exists e. split; [exact He|].
    apply find_seq_Some in He as (Hr & _). lia.
Qed.

Lemma X15_blank_line_ends_span_witness :
  (1 <= 1 < Nat.min (length S_overlap) (1 + 20)
   /\ nth_error S_overlap 1 = Some ""
   /\ Js.trim "" = "")
  /\ exists e,
       findContextAfterPosition S_overlap ["</ul>"] 1 = Some e
       /\ 1 <= e <= 1.
Proof.
  split; [split; [vm_compute; lia | split; reflexivity]|].
  apply (X15_blank_line_ends_span S_overlap "</ul>" 1 1 "");
    [vm_compute; lia | reflexivity | reflexivity].
Defined.
